(** * Lead management system: validators, status engine, analytics and
    bulk update

    A shallow embedding of

    - [backend/utils/validators.js]  ([isValidEmail], [isValidPhone],
      [isValidName], [formatPhoneNumber], [normalizeEmail],
      [capitalizeName]),
    - [backend/models/Lead.js]       (the schema, the [pre('save')] hook,
      [updateStatus], [getProgressionMetrics], [findByEmail],
      [getLeadStats], [getLeadProgressionStats]),
    - [backend/controllers/leadController.js] ([getLeadStats], the
      conversion rates of [getLeadProgressionAnalytics],
      [bulkUpdateLeadStatus]),

    followed by the properties of the specification that concern them.

    Conventions.  A JavaScript string is a [string], one [ascii] for each
    code unit: the embedding covers the strings whose code units are all
    below 128 ([ascii_only]), on which [trim], [toLowerCase], [toUpperCase]
    and [\s] are those of the runtime; a statement that would not hold of
    the runtime beyond that fragment carries the hypothesis.  A number is a
    [Z] where the code counts or subtracts dates, and a binary64
    floating-point number ([spec_float]) where it divides.  A [Date] is the
    number of milliseconds it denotes, a [Z]; [undefined] is [None]; an
    object used as a dictionary is a [gmap string _]; a document of the
    collection is a record, together with the three pieces of state
    Mongoose keeps for it in memory ([isNew], the modified mark of the path
    [status], and the transient property [_statusNotes]).  The clock
    ([new Date()]), the verdict of the persistence layer on each save and
    the cast of an identifier to an ObjectId are explicit arguments. *)

From Stdlib Require Import ZArith QArith Ascii String SpecFloat DecimalString.
From stdpp Require Import gmap strings list fin_maps.

Local Open Scope string_scope.
Local Open Scope Z_scope.

(** ** Strings *)

(** [\d] of a JavaScript regular expression: one of the ten ASCII digits. *)
Definition is_digit (c : ascii) : bool :=
  let n := nat_of_ascii c in ((48 <=? n) && (n <=? 57))%nat.

(** [\w]: an ASCII letter, a digit or the underscore. *)
Definition is_word_char (c : ascii) : bool :=
  let n := nat_of_ascii c in
  (((65 <=? n) && (n <=? 90)) || ((97 <=? n) && (n <=? 122))
   || is_digit c || (n =? 95))%nat.

(** [toUpperCase] and [toLowerCase] on one code unit below 128: the 26
    letters change case, nothing else changes. *)
Definition toUpperCase (c : ascii) : ascii :=
  let n := nat_of_ascii c in
  if ((97 <=? n) && (n <=? 122))%nat then ascii_of_nat (n - 32) else c.

Definition toLowerCase (c : ascii) : ascii :=
  let n := nat_of_ascii c in
  if ((65 <=? n) && (n <=? 90))%nat then ascii_of_nat (n + 32) else c.

(** The regular expression [/(?!^\+)\D/g] at offset [i] of the subject: the
    negative lookahead [(?!^\+)] fails exactly when the offset is the start
    of the string and the character there is [+]; then [\D] consumes one
    character that is not a digit. *)
Definition phone_noise (i : nat) (c : ascii) : bool :=
  negb ((i =? 0)%nat && Ascii.eqb c "+") && negb (is_digit c).

(** [s.replace(/(?!^\+)\D/g, '')], scanning [s] from offset [i]. *)
Fixpoint strip_phone_from (i : nat) (s : string) : string :=
  match s with
  | EmptyString => EmptyString
  | String c r =>
      if phone_noise i c then strip_phone_from (S i) r
      else String c (strip_phone_from (S i) r)
  end.

(** validators.js, [formatPhoneNumber]. *)
Definition formatPhoneNumber (phone : string) : string :=
  strip_phone_from 0 phone.

(** [str.replace(/\b\w+/g, word => word.charAt(0).toUpperCase() +
    word.slice(1).toLowerCase())]: every maximal run of word characters has
    its first character upper-cased and the others lower-cased.  [inside]
    tells whether the previous character belongs to the current run. *)
Fixpoint capitalize_from (inside : bool) (s : string) : string :=
  match s with
  | EmptyString => EmptyString
  | String c r =>
      if is_word_char c
      then String (if inside then toLowerCase c else toUpperCase c)
                  (capitalize_from true r)
      else String c (capitalize_from false r)
  end.

(** validators.js, [capitalizeName]; Lead.js, [capitalizeWords]. *)
Definition capitalizeWords (str : string) : string := capitalize_from false str.

(** The white space of [String.prototype.trim] and of [\s] among the code
    units below 128: tab, line feed, vertical tab, form feed, carriage
    return and space. *)
Definition is_space (c : ascii) : bool :=
  let n := nat_of_ascii c in
  (((9 <=? n) && (n <=? 13)) || (n =? 32))%nat.

Fixpoint trim_start (s : string) : string :=
  match s with
  | EmptyString => EmptyString
  | String c r => if is_space c then trim_start r else s
  end.

Fixpoint string_rev_onto (acc s : string) : string :=
  match s with
  | EmptyString => acc
  | String c r => string_rev_onto (String c acc) r
  end.

Definition trim (s : string) : string :=
  string_rev_onto EmptyString
    (trim_start (string_rev_onto EmptyString (trim_start s))).

(** Truthiness of a string value: [undefined] and [''] are falsy. *)
Definition truthy (v : option string) : bool :=
  match v with
  | Some s => negb (String.eqb s EmptyString)
  | None => false
  end.

(** ** The Lead document (models/Lead.js, [leadSchema]) *)

(** One element of [statusHistory]. *)
Record HistoryEntry := mkEntry {
  entry_status : string;
  timestamp : Z;
  entry_notes : option string
}.

(** The nested object [statusTimestamps]; a date that was never assigned is
    [None]. *)
Record StatusTimestamps := mkStamps {
  connectedAt : option Z;
  qualifiedAt : option Z;
  convertedAt : option Z
}.

(** The object literal [{}]. *)
Definition no_stamps : StatusTimestamps := mkStamps None None None.

(** A document.  The last three fields are not paths of the schema: they are
    the state of the in-memory Mongoose document ([this.isNew],
    [this.isModified('status')], and the property [_statusNotes] that
    [updateStatus] leaves for the hook). *)
Record Lead := mkLead {
  _id : string;
  name : option string;
  firstName : option string;
  lastName : option string;
  company : option string;
  email : string;
  phone : string;
  status : string;
  statusHistory : list HistoryEntry;
  statusTimestamps : option StatusTimestamps;
  source : string;
  notes : option string;
  createdAt : Z;
  isNew : bool;
  statusModified : bool;
  _statusNotes : option string
}.

Definition set_contact (nm fn ln co : option string) (ph : string) (d : Lead) : Lead :=
  mkLead (_id d) nm fn ln co (email d) ph (status d) (statusHistory d)
         (statusTimestamps d) (source d) (notes d) (createdAt d)
         (isNew d) (statusModified d) (_statusNotes d).

Definition set_statusHistory (h : list HistoryEntry) (d : Lead) : Lead :=
  mkLead (_id d) (name d) (firstName d) (lastName d) (company d) (email d)
         (phone d) (status d) h (statusTimestamps d) (source d) (notes d)
         (createdAt d) (isNew d) (statusModified d) (_statusNotes d).

Definition set_statusTimestamps (t : option StatusTimestamps) (d : Lead) : Lead :=
  mkLead (_id d) (name d) (firstName d) (lastName d) (company d) (email d)
         (phone d) (status d) (statusHistory d) t (source d) (notes d)
         (createdAt d) (isNew d) (statusModified d) (_statusNotes d).

Definition set_statusNotes (n : option string) (d : Lead) : Lead :=
  mkLead (_id d) (name d) (firstName d) (lastName d) (company d) (email d)
         (phone d) (status d) (statusHistory d) (statusTimestamps d) (source d)
         (notes d) (createdAt d) (isNew d) (statusModified d) n.

(** The assignment [this.status = s].  Mongoose's setter marks the path
    modified when the document is new or when the value assigned differs
    from the value the path holds; assigning the value already held leaves
    the mark as it was. *)
Definition set_status (s : string) (d : Lead) : Lead :=
  mkLead (_id d) (name d) (firstName d) (lastName d) (company d) (email d)
         (phone d) s (statusHistory d) (statusTimestamps d) (source d)
         (notes d) (createdAt d) (isNew d)
         (statusModified d || isNew d || negb (String.eqb (status d) s))
         (_statusNotes d).

(** What a successful [save] does to the in-memory state: the document is no
    longer new, no path is modified, and an inserted document received its
    [createdAt] (schema option [timestamps: true]). *)
Definition mark_saved (now : Z) (d : Lead) : Lead :=
  mkLead (_id d) (name d) (firstName d) (lastName d) (company d) (email d)
         (phone d) (status d) (statusHistory d) (statusTimestamps d) (source d)
         (notes d) (if isNew d then now else createdAt d) false false
         (_statusNotes d).

(** The enumeration of the path [status], also the constant [validStatuses]
    of [updateStatus] and of the controllers. *)
Definition validStatuses : list string :=
  ["new"; "connected"; "qualified"; "converted"].

(** [Array.prototype.includes] on strings. *)
Definition includes (l : list string) (s : string) : bool :=
  existsb (String.eqb s) l.

(** [Array.prototype.join]. *)
Fixpoint join (sep : string) (l : list string) : string :=
  match l with
  | [] => EmptyString
  | [x] => x
  | x :: r => x +:+ sep +:+ join sep r
  end.

(** *** The [pre('save')] hook *)

(** Lines 162-191: phone normalisation, derived name, capitalisation. *)
Definition normalize_contact (d : Lead) : Lead :=
  let ph := if truthy (Some (phone d)) then strip_phone_from 0 (phone d)
            else phone d in
  let nm := if negb (truthy (name d)) && truthy (firstName d) && truthy (lastName d)
            then match firstName d, lastName d with
                 | Some f, Some l => Some (f +:+ " " +:+ l)
                 | _, _ => name d
                 end
            else name d in
  let cap v := if truthy v then option_map capitalizeWords v else v in
  let co := if truthy (company d) then option_map trim (company d) else company d in
  set_contact (cap nm) (cap (firstName d)) (cap (lastName d)) co ph d.

(** Lines 225-241: the [switch] on the current status.  A stored date is an
    object, hence truthy: the guard [!this.statusTimestamps.connectedAt]
    holds exactly when the date was never assigned. *)
Definition stamp_status (currentStatus : string) (now : Z)
    (t : StatusTimestamps) : StatusTimestamps :=
  if String.eqb currentStatus "connected" then
    match connectedAt t with
    | None => mkStamps (Some now) (qualifiedAt t) (convertedAt t)
    | Some _ => t
    end
  else if String.eqb currentStatus "qualified" then
    match qualifiedAt t with
    | None => mkStamps (connectedAt t) (Some now) (convertedAt t)
    | Some _ => t
    end
  else if String.eqb currentStatus "converted" then
    match convertedAt t with
    | None => mkStamps (connectedAt t) (qualifiedAt t) (Some now)
    | Some _ => t
    end
  else t.

(** Lines 194-242: history and stage timestamps. *)
Definition track_status (now : Z) (d : Lead) : Lead :=
  if statusModified d || isNew d then
    let currentStatus := status d in
    let d1 :=
      if isNew d then
        set_statusHistory [mkEntry currentStatus now None] d
      else if truthy (_statusNotes d) then
        set_statusNotes None
          (set_statusHistory
             (statusHistory d ++ [mkEntry currentStatus now (_statusNotes d)]) d)
      else
        set_statusHistory (statusHistory d ++ [mkEntry currentStatus now None]) d in
    let t := match statusTimestamps d1 with
             | None => no_stamps
             | Some t => t
             end in
    set_statusTimestamps (Some (stamp_status currentStatus now t)) d1
  else d.

(** [leadSchema.pre('save', ...)]; [now] is the value of [new Date()]. *)
Definition pre_save (now : Z) (d : Lead) : Lead :=
  track_status now (normalize_contact d).

(** *** Saving *)

(** The outcome of a promise. *)
Inductive Outcome :=
| Resolved
| Rejected (message : string).

(** The persistence layer seen from the model: the schema validation, which
    Mongoose runs before the hooks of [save], and the write to the database,
    which follows them.  Each may fail with a message. *)
Record Persistence := mkPersistence {
  validation_error : Lead -> option string;
  write_error : Lead -> option string
}.

(** A layer that accepts every document. *)
Definition accepting : Persistence :=
  mkPersistence (fun _ => None) (fun _ => None).

Definition always_accepts (db : Persistence) : Prop :=
  forall d, validation_error db d = None /\ write_error db d = None.

(** [doc.save()]: the in-memory document afterwards and the outcome. *)
Definition save (db : Persistence) (now : Z) (d : Lead) : Lead * Outcome :=
  match validation_error db d with
  | Some msg => (d, Rejected msg)
  | None =>
      let d' := pre_save now d in
      match write_error db d' with
      | Some msg => (d', Rejected msg)
      | None => (mark_saved now d', Resolved)
      end
  end.

(** [leadSchema.methods.updateStatus]; a synchronous [throw] and a rejected
    promise are both [Rejected] for the caller that awaits. *)
Definition updateStatus (db : Persistence) (now : Z)
    (newStatus : string) (notes : option string) (d : Lead) : Lead * Outcome :=
  if negb (includes validStatuses newStatus) then
    (d, Rejected ("Invalid status: " +:+ newStatus +:+ ". Must be one of: "
                  +:+ join ", " validStatuses))
  else
    let d1 := set_status newStatus d in
    let d2 := if truthy notes && (0 <? Z.of_nat (length (statusHistory d1)))
              then set_statusNotes notes d1 else d1 in
    save db now d2.

(** *** Construction *)

(** The object the controller [createLead] hands to [new Lead(...)]. *)
Record LeadInput := mkInput {
  in_name : option string;
  in_firstName : option string;
  in_lastName : option string;
  in_email : string;
  in_phone : string;
  in_company : option string;
  in_source : string;
  in_notes : option string
}.

(** [String.prototype.toLowerCase] on a string of code units below 128. *)
Fixpoint lower_string (s : string) : string :=
  match s with
  | EmptyString => EmptyString
  | String c r => String (toLowerCase c) (lower_string r)
  end.

(** [new Lead(sanitizedData)] with the identifier the driver generates.  The
    setters of the schema apply ([trim: true], [lowercase: true]).  The
    input carries no status, so the path takes its default ['new']; the
    array path starts empty and the nested path as an empty object. *)
Definition new_Lead (id : string) (i : LeadInput) : Lead :=
  mkLead id (option_map trim (in_name i)) (option_map trim (in_firstName i))
         (option_map trim (in_lastName i)) (option_map trim (in_company i))
         (lower_string (trim (in_email i))) (trim (in_phone i)) "new" []
         (Some no_stamps) (in_source i) (option_map trim (in_notes i))
         0 true false None.

(** Construct: [new Lead(sanitizedData).save()], the two steps of the
    controller [createLead] that build the lead, once the request passed
    its checks. *)
Definition Construct (db : Persistence) (now : Z) (id : string) (i : LeadInput)
    : Lead * Outcome :=
  save db now (new_Lead id i).

(** *** Sequences of transitions *)

(** One call of [updateStatus]: its arguments and the clock at that time. *)
Record Transition := mkTransition {
  to_status : string;
  with_notes : option string;
  at_time : Z
}.

(** The transitions applied one after the other to the same document. *)
Fixpoint apply_transitions (db : Persistence) (ts : list Transition) (d : Lead) : Lead :=
  match ts with
  | [] => d
  | t :: r =>
      apply_transitions db r
        (fst (updateStatus db (at_time t) (to_status t) (with_notes t) d))
  end.

(** The number of transitions of [ts] whose target differs from the status
    held just before, for a document whose status is [s]. *)
Fixpoint status_changes (s : string) (ts : list Transition) : nat :=
  match ts with
  | [] => 0
  | t :: r =>
      ((if String.eqb s (to_status t) then 0 else 1) + status_changes (to_status t) r)%nat
  end.

(** The three stages that carry a timestamp. *)
Inductive Stage := Connected | Qualified | Converted.

(** [lead.statusTimestamps.<stage>At]. *)
Definition stage_timestamp (st : Stage) (d : Lead) : option Z :=
  match statusTimestamps d with
  | None => None
  | Some t =>
      match st with
      | Connected => connectedAt t
      | Qualified => qualifiedAt t
      | Converted => convertedAt t
      end
  end.

(** ** Progression metrics ([leadSchema.methods.getProgressionMetrics]) *)

Record Metrics := mkMetrics {
  totalProgressions : Z;
  timeInEachStatus : gmap string Z;
  currentStatusDuration : option Z
}.

(** The body of the [for] loop, from the entry [current] on: [rest] holds the
    entries after it, so that [next] is its head when there is one. *)
Fixpoint metrics_loop (now : Z) (current : HistoryEntry) (rest : list HistoryEntry)
    (m : Metrics) : Metrics :=
  match rest with
  | next :: rest' =>
      let timeSpent := timestamp next - timestamp current in
      metrics_loop now next rest'
        (mkMetrics (totalProgressions m)
                   (<[entry_status current := timeSpent]> (timeInEachStatus m))
                   (currentStatusDuration m))
  | [] =>
      mkMetrics (totalProgressions m) (timeInEachStatus m)
                (Some (now - timestamp current))
  end.

(** [now] is the value of [new Date()] in the last iteration; the result
    [None] is JavaScript's [null]. *)
Definition getProgressionMetrics (now : Z) (d : Lead) : option Metrics :=
  match statusHistory d with
  | [] => None
  | first :: rest =>
      Some (metrics_loop now first rest
              (mkMetrics (Z.of_nat (length (statusHistory d)) - 1) ∅ None))
  end.

(** ** Analytics ([leadSchema.statics.getLeadProgressionStats]) *)

(** [$sum] of [$cond: [p, 1, 0]] over the documents of a group. *)
Definition sum_cond (p : Lead -> bool) (docs : list Lead) : Z :=
  fold_left (fun acc d => acc + (if p d then 1 else 0)) docs 0.

Record Funnel := mkFunnel {
  total : Z;
  connected : Z;
  qualified : Z;
  converted : Z
}.

Definition status_is (s : string) (d : Lead) : bool := String.eqb (status d) s.

(** The facet [conversionFunnel]: a [$group] with [_id: null] outputs one
    document for a collection that is not empty and none for an empty one. *)
Definition conversionFunnel (docs : list Lead) : list Funnel :=
  match docs with
  | [] => []
  | _ :: _ =>
      [mkFunnel
         (sum_cond (fun _ => true) docs)
         (sum_cond (fun d => status_is "connected" d || status_is "qualified" d
                             || status_is "converted" d) docs)
         (sum_cond (fun d => status_is "qualified" d || status_is "converted" d) docs)
         (sum_cond (fun d => status_is "converted" d) docs)]
  end.

(** The controller's [result.conversionFunnel[0] || { total: 0, ... }]. *)
Definition funnel_of (docs : list Lead) : Funnel :=
  match conversionFunnel docs with
  | f :: _ => f
  | [] => mkFunnel 0 0 0 0
  end.

(** The values the expressions of the facet [averageProgressionTimes] range
    over: a path that is absent from the document, [null], a date, a number. *)
Inductive Bson :=
| BMissing
| BNull
| BDate (ms : Z)
| BLong (n : Z).

(** ['$statusTimestamps.<stage>At'] and ['$createdAt']. *)
Definition stamp_path (st : Stage) (d : Lead) : Bson :=
  match stage_timestamp st d with
  | Some t => BDate t
  | None => BMissing
  end.

Definition createdAt_path (d : Lead) : Bson := BDate (createdAt d).

(** [{ path: { $exists: true } }] of a [$match]. *)
Definition bson_exists (v : Bson) : bool :=
  match v with
  | BMissing => false
  | _ => true
  end.

(** [{ $ne: [v, null] }]: an absent path is not [null] for the comparison
    operators of the aggregation language. *)
Definition bson_ne_null (v : Bson) : bool :=
  match v with
  | BNull => false
  | _ => true
  end.

(** [{ $subtract: [a, b] }]: the difference of two dates is a number of
    milliseconds; with an operand that is [null] or absent the result is
    [null]. *)
Definition bson_subtract (a b : Bson) : Bson :=
  match a, b with
  | BDate x, BDate y => BLong (x - y)
  | BLong x, BLong y => BLong (x - y)
  | BDate x, BLong y => BDate (x - y)
  | _, _ => BNull
  end.

(** The argument of [$avg] for one stage:
    [$cond: [{ $and: [{ $ne: [stamp, null] }] }, { $subtract: [stamp, '$createdAt'] }, null]]. *)
Definition time_to_stage (st : Stage) (d : Lead) : Bson :=
  if bson_ne_null (stamp_path st d)
  then bson_subtract (stamp_path st d) (createdAt_path d)
  else BNull.

(** The numbers among the values: [$avg] ignores everything else. *)
Definition numeric (vs : list Bson) : list Z :=
  omap (fun v => match v with BLong n => Some n | _ => None end) vs.

Definition sum_Z (l : list Z) : Z := fold_right Z.add 0 l.

(** The mean of a list of integers as a rational; [None] for no value. *)
Definition mean (l : list Z) : option Q :=
  match l with
  | [] => None
  | _ :: _ => Some (Qmake (sum_Z l) (Pos.of_nat (length l)))
  end.

(** [$avg]: the mean of the numeric values, [null] when there is none.  The
    database returns the quotient as a double; the model keeps the exact
    fraction sum/count. *)
Definition bson_avg (vs : list Bson) : option Q := mean (numeric vs).

Record AverageTimes := mkAverageTimes {
  avgTimeToConnect : option Q;
  avgTimeToQualify : option Q;
  avgTimeToConvert : option Q
}.

(** The [$match] stage of the facet. *)
Definition has_stage_timestamp (d : Lead) : bool :=
  bson_exists (stamp_path Connected d) || bson_exists (stamp_path Qualified d)
  || bson_exists (stamp_path Converted d).

(** The facet [averageProgressionTimes]: [$match], then [$group] with
    [_id: null]. *)
Definition averageProgressionTimes (docs : list Lead) : list AverageTimes :=
  match List.filter has_stage_timestamp docs with
  | [] => []
  | (_ :: _) as matched =>
      [mkAverageTimes
         (bson_avg (map (time_to_stage Connected) matched))
         (bson_avg (map (time_to_stage Qualified) matched))
         (bson_avg (map (time_to_stage Converted) matched))]
  end.

(** The durations from creation to a stage, over the leads that have the
    timestamp of that stage. *)
Definition stage_durations (st : Stage) (docs : list Lead) : list Z :=
  omap (fun d => match stage_timestamp st d with
                 | Some t => Some (t - createdAt d)
                 | None => None
                 end) docs.

(** ** Bulk status update ([bulkUpdateLeadStatus] of the controller) *)

(** [req.body], after the validation middleware. *)
Record BulkRequest := mkBulkRequest {
  leadIds : list string;
  req_status : string;
  req_notes : option string
}.

(** An element of [updateResults]. *)
Record UpdateResult := mkUpdateResult {
  res_id : string;
  res_name : option string;
  res_email : string;
  oldStatus : string;
  newStatus : string
}.

(** An element of [errors]. *)
Record UpdateError := mkUpdateError {
  err_id : string;
  err_name : option string;
  err_email : string;
  error : string
}.

Record Summary := mkSummary {
  requested : nat;
  found : nat;
  successful : nat;
  failed : nat
}.

Inductive Response :=
| Status400 (message : string)
| Status404 (message : string)
| Status200 (successful_items : list UpdateResult) (failed_items : list UpdateError)
            (summary : Summary)
| Status500 (message : string).

(** [Lead.find({ _id: { $in: ids } })]: the documents of the collection whose
    identifier is among [ids], each once, hydrated (not new, nothing
    modified, no transient property). *)
Definition hydrate (d : Lead) : Lead :=
  mkLead (_id d) (name d) (firstName d) (lastName d) (company d) (email d)
         (phone d) (status d) (statusHistory d) (statusTimestamps d) (source d)
         (notes d) (createdAt d) false false None.

Definition find_in (collection : list Lead) (ids : list string) : list Lead :=
  map hydrate (List.filter (fun d => includes ids (_id d)) collection).

(** The [for (const lead of leads)] loop with its [try]/[catch]; [clock i]
    is the time of the [i]-th iteration.  The record of a success is built
    after [updateStatus] returned, from the document it mutated. *)
Fixpoint update_each (db : Persistence) (clock : nat -> Z) (i : nat)
    (status' : string) (notes' : option string) (leads : list Lead)
    (updateResults : list UpdateResult) (errors : list UpdateError)
    : list UpdateResult * list UpdateError :=
  match leads with
  | [] => (updateResults, errors)
  | lead :: rest =>
      match updateStatus db (clock i) status' notes' lead with
      | (lead', Resolved) =>
          update_each db clock (S i) status' notes' rest
            (updateResults ++
               [mkUpdateResult (_id lead') (name lead') (email lead')
                               (status lead') status'])
            errors
      | (lead', Rejected msg) =>
          update_each db clock (S i) status' notes' rest
            updateResults
            (errors ++ [mkUpdateError (_id lead') (name lead') (email lead') msg])
      end
  end.

(** The query [Lead.find({ _id: { $in: leadIds } })].  Mongoose casts each
    element of [leadIds] to an ObjectId: [cast_id] is that cast, [None] when
    it throws a CastError (the string is no ObjectId) and otherwise the
    identifier in the form in which documents carry it.  The query throws
    when one cast does, and else finds the documents whose identifier is one
    of the identifiers cast. *)
Definition find_by_ids (cast_id : string -> option string)
    (collection : list Lead) (ids : list string) : option (list Lead) :=
  match mapM cast_id ids with
  | Some oids => Some (find_in collection oids)
  | None => None
  end.

(** The handler.  It does not consult the result of the validation
    middleware, so identifiers that are no ObjectId reach the query; what
    the query throws is caught by the outer [catch]. *)
Definition bulkUpdateLeadStatus (cast_id : string -> option string)
    (db : Persistence) (clock : nat -> Z)
    (collection : list Lead) (body : BulkRequest) : Response :=
  if (length (leadIds body) =? 0)%nat then
    Status400 "leadIds array is required and must not be empty"
  else if negb (truthy (Some (req_status body)))
          || negb (includes validStatuses (req_status body)) then
    Status400 ("Invalid status. Must be one of: " +:+ join ", " validStatuses)
  else if (100 <? length (leadIds body))%nat then
    Status400 "Cannot update more than 100 leads at once"
  else
    match find_by_ids cast_id collection (leadIds body) with
    | None => Status500 "Internal server error while updating lead statuses"
    | Some leads =>
        if (length leads =? 0)%nat then
          Status404 "No leads found with the provided IDs"
        else
          let '(updateResults, errors) :=
            update_each db clock 0 (req_status body) (req_notes body) leads [] [] in
          Status200 updateResults errors
            (mkSummary (length (leadIds body)) (length leads)
                       (length updateResults) (length errors))
    end.

(** ** Auxiliary notions used in the statements *)

(** The characters of a string that are digits. *)
Fixpoint digits_of (s : string) : string :=
  match s with
  | EmptyString => EmptyString
  | String c r => if is_digit c then String c (digits_of r) else digits_of r
  end.

Fixpoint all_digits (s : string) : bool :=
  match s with
  | EmptyString => true
  | String c r => is_digit c && all_digits r
  end.

(** The document [updateStatus] hands to [save]. *)
Definition staged (s : string) (n : option string) (d : Lead) : Lead :=
  let d1 := set_status s d in
  if truthy n && (0 <? Z.of_nat (length (statusHistory d1)))
  then set_statusNotes n d1 else d1.

(** A transition with a status of the enumeration. *)
Definition valid_transition (t : Transition) : Prop :=
  includes validStatuses (to_status t) = true.

(** ** Sample data *)

Definition jane_input : LeadInput :=
  mkInput None (Some "jane") (Some "doe") "JANE@X.COM" "555-123-4567" None
          "website" None.

(** The lead of [jane_input], created at time 1000. *)
Definition jane : Lead := fst (Construct accepting 1000 "L1" jane_input).

(** new -> connected -> qualified -> connected, at times 2000, 3000, 4000. *)
Definition jane_journey : list Transition :=
  [mkTransition "connected" None 2000;
   mkTransition "qualified" (Some "budget confirmed") 3000;
   mkTransition "connected" None 4000].

(** new -> connected -> qualified -> connected -> converted: the status
    connected is held twice, for 1000 ms and then for 2000 ms. *)
Definition jane_returns : Lead :=
  apply_transitions accepting
    (jane_journey ++ [mkTransition "converted" None 6000])%list jane.

(** A 24-digit hexadecimal identifier ending in the digit [tag]. *)
Definition object_id (tag : string) : string :=
  "64b7f0a1c2d3e4f5a6b7c80" +:+ tag.

(** A stored lead with the given status, stage timestamps and creation
    time. *)
Definition stored_lead (tag : string) (s : string) (t : StatusTimestamps)
    (created : Z) : Lead :=
  mkLead (object_id tag) (Some "Sample Lead") None None None
         (tag +:+ "@example.com")
         "5551234567" s [mkEntry "new" created None] (Some t) "website" None
         created false false None.

(** Five leads; only the first two have [connectedAt]. *)
Definition five_leads : list Lead :=
  [stored_lead "a" "connected" (mkStamps (Some 1000) None None) 0;
   stored_lead "b" "qualified" (mkStamps (Some 3500) (Some 5000) None) 500;
   stored_lead "c" "qualified" (mkStamps None (Some 4000) None) 0;
   stored_lead "d" "new" no_stamps 0;
   stored_lead "e" "new" no_stamps 100].

(** A bulk request over three identifiers of [five_leads] and one, just as
    well formed, that resolves to no lead. *)
Definition three_and_one : BulkRequest :=
  mkBulkRequest [object_id "a"; object_id "b"; object_id "c"; object_id "f"]
                "converted" None.

(** A layer whose database refuses to write the lead [b]. *)
Definition refusing_b : Persistence :=
  mkPersistence (fun _ => None)
    (fun d => if String.eqb (_id d) (object_id "b") then Some "write failed"
              else None).

(** ** The validators (utils/validators.js) *)

(** A regular expression of the shape [^c1{a1,b1} c2{a2,b2} ... $]: a
    sequence of character classes, each with a lower bound and an optional
    upper bound on its repetitions, anchored at both ends. *)
Record Quantified := mkQuantified {
  q_class : ascii -> bool;
  q_min : nat;
  q_max : option nat
}.

(** The ways to match [lo] to [hi] characters of class [p] at the start of
    [s], the rest of the expression, [k], matching what follows. *)
Fixpoint match_run (p : ascii -> bool) (lo : nat) (hi : option nat)
    (k : string -> bool) (s : string) : bool :=
  (match lo with O => k s | S _ => false end)
  || match s with
     | EmptyString => false
     | String c r =>
         p c && match hi with
                | Some O => false
                | Some (S h) => match_run p (Nat.pred lo) (Some h) k r
                | None => match_run p (Nat.pred lo) None k r
                end
     end.

(** [regex.test(s)] for such an expression. *)
Fixpoint match_seq (items : list Quantified) (s : string) : bool :=
  match items with
  | [] => String.eqb s EmptyString
  | q :: rest => match_run (q_class q) (q_min q) (q_max q) (match_seq rest) s
  end.

(** [[a-zA-Z]]. *)
Definition is_letter (c : ascii) : bool :=
  let n := nat_of_ascii c in
  (((65 <=? n) && (n <=? 90)) || ((97 <=? n) && (n <=? 122)))%nat.

Definition is_char (x : ascii) (c : ascii) : bool := Ascii.eqb c x.

(** [[a-zA-Z0-9._%+-]]. *)
Definition email_local_class (c : ascii) : bool :=
  is_letter c || is_digit c || is_char "." c || is_char "_" c
  || is_char "%" c || is_char "+" c || is_char "-" c.

(** [[a-zA-Z0-9.-]]. *)
Definition email_domain_class (c : ascii) : bool :=
  is_letter c || is_digit c || is_char "." c || is_char "-" c.

(** [[a-zA-Z\s\-']]. *)
Definition name_class (c : ascii) : bool :=
  is_letter c || is_space c || is_char "-" c || is_char "'" c.

(** [/^[a-zA-Z0-9._%+-]+@[a-zA-Z0-9.-]+\.[a-zA-Z]{2,}$/]. *)
Definition emailRegex : list Quantified :=
  [mkQuantified email_local_class 1 None;
   mkQuantified (is_char "@") 1 (Some 1%nat);
   mkQuantified email_domain_class 1 None;
   mkQuantified (is_char ".") 1 (Some 1%nat);
   mkQuantified is_letter 2 None].

(** [/^[a-zA-Z\s\-']{2,50}$/]. *)
Definition nameRegex : list Quantified :=
  [mkQuantified name_class 2 (Some 50%nat)].

Definition isValidEmail (email : string) : bool := match_seq emailRegex email.

(** [phone.replace(/\D/g, '')] is [digits_of phone]. *)
Definition isValidPhone (phone : string) : bool :=
  let digitsOnly := digits_of phone in
  ((10 <=? String.length digitsOnly) && (String.length digitsOnly <=? 15))%nat.

Definition isValidName (name' : string) : bool := match_seq nameRegex name'.

(** [isValidLength], for a value that is a string. *)
Definition isValidLength (str : string) (min max : nat) : bool :=
  let length' := String.length (trim str) in
  ((min <=? length') && (length' <=? max))%nat.

(** [email.toLowerCase().trim()]. *)
Definition normalizeEmail (email : string) : string := trim (lower_string email).

Definition capitalizeName (name' : string) : string := capitalize_from false name'.

(** [isRequired], for a value that is a string or undefined. *)
Definition isRequired (value : option string) : bool :=
  match value with
  | Some s => negb (String.eqb (trim s) EmptyString)
  | None => false
  end.

(** The characters of [s'] are those of [s], each possibly in the other
    case. *)
Inductive case_variant : string -> string -> Prop :=
| cv_nil : case_variant EmptyString EmptyString
| cv_cons c c' s s' :
    c' = c \/ c' = toUpperCase c \/ c' = toLowerCase c ->
    case_variant s s' -> case_variant (String c s) (String c' s').

(** Every character of [s] satisfies [p]. *)
Fixpoint all_chars (p : ascii -> bool) (s : string) : bool :=
  match s with
  | EmptyString => true
  | String c r => p c && all_chars p r
  end.

(** The number of characters of [s] that satisfy [p]. *)
Fixpoint count_chars (p : ascii -> bool) (s : string) : nat :=
  match s with
  | EmptyString => 0
  | String c r => ((if p c then 1 else 0) + count_chars p r)%nat
  end.

(** [phone.startsWith('+')]. *)
Definition starts_with_plus (s : string) : bool :=
  match s with
  | String c _ => Ascii.eqb c "+"
  | EmptyString => false
  end.

(** A class that does not tell a letter from the same letter in the other
    case. *)
Definition case_blind (p : ascii -> bool) : Prop :=
  forall c, p (toUpperCase c) = p c /\ p (toLowerCase c) = p c.

(** A string that neither starts nor ends with white space. *)
Definition starts_clean (s : string) : bool :=
  match s with
  | EmptyString => true
  | String c _ => negb (is_space c)
  end.

Abbreviation srev s := (string_rev_onto EmptyString s).

Definition trimmed (s : string) : Prop :=
  starts_clean s = true /\ starts_clean (string_rev_onto EmptyString s) = true.

Definition not_space (c : ascii) : bool := negb (is_space c).

(** The hook's [if (this.x) this.x = capitalizeWords(this.x)]. *)
Definition capitalized (v : option string) : option string :=
  if truthy v then option_map capitalizeWords v else v.

(** ** Notions for the invariants of the status engine *)

(** The status that goes with a stage. *)
Definition stage_name (st : Stage) : string :=
  match st with
  | Connected => "connected"
  | Qualified => "qualified"
  | Converted => "converted"
  end.

Definition stage_get (st : Stage) (t : StatusTimestamps) : option Z :=
  match st with
  | Connected => connectedAt t
  | Qualified => qualifiedAt t
  | Converted => convertedAt t
  end.

(** The first entry of a history with the status [s]. *)
Definition first_with_status (s : string) (h : list HistoryEntry)
    : option HistoryEntry :=
  List.find (fun e => String.eqb (entry_status e) s) h.

(** A stored document whose history and stage timestamps tell the same
    story as its status: nothing is pending, the last entry of the history
    carries the current status, and each stage timestamp is the time of the
    first entry with the status of the stage. *)
Definition well_tracked (d : Lead) : Prop :=
  isNew d = false /\ statusModified d = false /\
  option_map entry_status (last (statusHistory d)) = Some (status d) /\
  forall st, stage_timestamp st d =
             option_map timestamp
               (first_with_status (stage_name st) (statusHistory d)).

(** The times of the transitions do not go backwards, starting from [t0]. *)
Fixpoint nondecreasing_from (t0 : Z) (ts : list Transition) : Prop :=
  match ts with
  | [] => True
  | t :: r => t0 <= at_time t /\ nondecreasing_from (at_time t) r
  end.

(** The entries of a history are in the order of their timestamps. *)
Definition chronological (h : list HistoryEntry) : Prop :=
  forall i j a b, (i <= j)%nat -> h !! i = Some a -> h !! j = Some b ->
                  timestamp a <= timestamp b.

(** ** Status counts ([leadSchema.statics.getLeadStats], and the handler
    [getLeadStats] of the controller) *)

(** [$group: { _id: '$status', count: { $sum: 1 } }]: one group per status
    that occurs, with the number of its documents. *)
Definition group_by_status (docs : list Lead) : gmap string Z :=
  fold_left
    (fun g d => <[status d := default 0 (g !! status d) + 1]> g) docs ∅.

(** The array the aggregation resolves to: the groups, as pairs of [_id] and
    [count], in an order the stage does not specify. *)
Definition stats_of (docs : list Lead) (stats : list (string * Z)) : Prop :=
  stats ≡ₚ map_to_list (group_by_status docs).

Record LeadStats := mkLeadStats {
  stats_total : Z;
  byStatus : gmap string Z
}.

(** The handler's [stats.forEach(stat => { formattedStats.total +=
    stat.count; formattedStats.byStatus[stat._id] = stat.count; })]. *)
Definition formatStats (stats : list (string * Z)) : LeadStats :=
  fold_left
    (fun acc stat => mkLeadStats (stats_total acc + snd stat)
                                 (<[fst stat := snd stat]> (byStatus acc)))
    stats (mkLeadStats 0 ∅).

(** The number of leads whose current status is [s]. *)
Definition count_status (s : string) (docs : list Lead) : Z :=
  sum_cond (status_is s) docs.

(** [leadSchema.statics.findByEmail]: [findOne({ email: email.toLowerCase() })].
    Mongoose casts the value of the filter with the setters of the path
    ([trim], [lowercase]), as it does for the value of a new document. *)
Definition findByEmail (collection : list Lead) (email' : string) : option Lead :=
  List.find
    (fun d => String.eqb (email d) (lower_string (trim (lower_string email'))))
    collection.

(** ** The ASCII fragment *)

Definition is_ascii (c : ascii) : bool := (nat_of_ascii c <? 128)%nat.

(** A string whose code units are all below 128. *)
Definition ascii_only (s : string) : Prop := all_chars is_ascii s = true.

(** ** A cast of identifiers for the samples *)

Definition is_hex (c : ascii) : bool :=
  let n := nat_of_ascii c in
  (((48 <=? n) && (n <=? 57)) || ((65 <=? n) && (n <=? 70))
   || ((97 <=? n) && (n <=? 102)))%nat.

(** The cast of a string of 24 hexadecimal digits, which every version of
    the driver accepts; other strings are refused here. *)
Definition hex24 (s : string) : option string :=
  if (String.length s =? 24)%nat && all_chars is_hex s
  then Some (lower_string s) else None.

(** ** Runs in which every call resolved *)

(** The document a resolved [updateStatus] leaves: staged, passed through
    the hook, marked as saved. *)
Definition committed (now : Z) (s : string) (n : option string) (d : Lead) : Lead :=
  mark_saved now (pre_save now (staged s n d)).

(** Every call of the run resolved: its status was valid and the persistence
    layer accepted that very save. *)
Fixpoint all_resolved (db : Persistence) (ts : list Transition) (d : Lead) : Prop :=
  match ts with
  | [] => True
  | t :: r =>
      snd (updateStatus db (at_time t) (to_status t) (with_notes t) d) = Resolved /\
      all_resolved db r
        (fst (updateStatus db (at_time t) (to_status t) (with_notes t) d))
  end.

(** A layer that validates: it refuses a lead whose phone number has not 10
    to 15 digits (the validator of the path [phone]) and accepts the
    others. *)
Definition validating : Persistence :=
  mkPersistence
    (fun d => if isValidPhone (phone d) then None
              else Some "Phone number must contain 10-15 digits")
    (fun _ => None).

(** ** Conversion rates (handler [getLeadProgressionAnalytics], lines 410-416) *)

(** A JavaScript number is a binary64 floating-point number: precision 53,
    exponents up to 1024, operations rounded to nearest, ties to even. *)
Definition double_of_Z (n : Z) : spec_float := binary_normalize 53 1024 n 0 false.
Definition double_div (x y : spec_float) : spec_float := SFdiv 53 1024 x y.
Definition double_mul (x y : spec_float) : spec_float := SFmul 53 1024 x y.

(** [num / den * 100]. *)
Definition percentage (num den : Z) : spec_float :=
  double_mul (double_div (double_of_Z num) (double_of_Z den)) (double_of_Z 100).

(** The decimal digits of a natural number. *)
Definition decimal (n : Z) : string :=
  NilZero.string_of_uint (N.to_uint (Z.to_N n)).

(** [Number.prototype.toFixed(2)] on the double [m * 2^e], [m] positive.
    [fixed2] is the integer [n] for which [n / 100 - m * 2^e] is closest to
    zero, the larger one when there are two; the result shows [n] with a
    point before its last two digits. *)
Definition fixed2 (m : positive) (e : Z) : Z :=
  match e with
  | Zneg k => (200 * Zpos m + 2 ^ Zpos k) / 2 ^ (Zpos k + 1)
  | _ => 100 * Zpos m * 2 ^ e
  end.

Definition render (n : Z) : string :=
  decimal (n / 100) +:+ "." +:+ decimal (n mod 100 / 10) +:+ decimal (n mod 10).

(** [m * 2^e < 10^21]. *)
Definition below_1e21 (m : positive) (e : Z) : bool :=
  match e with
  | Zneg k => Zpos m <? 10 ^ 21 * 2 ^ Zpos k
  | _ => Zpos m * 2 ^ e <? 10 ^ 21
  end.

(** [x.toFixed(2)].  From 10^21 on the method gives the digits of
    [Number::toString], in exponent notation: [exponential] stands for that
    function, which the embedding does not define. *)
Definition toFixed2 (exponential : spec_float -> string) (x : spec_float) : string :=
  match x with
  | S754_nan => "NaN"
  | S754_infinity false => "Infinity"
  | S754_infinity true => "-Infinity"
  | S754_zero _ => "0.00"
  | S754_finite s m e =>
      (if s then "-" else EmptyString)
      +:+ (if below_1e21 m e then render (fixed2 m e)
           else exponential (S754_finite false m e))
  end.

(** A rate is the number 0 or the string [toFixed] returns. *)
Inductive JsValue :=
| JsNumber (n : Z)
| JsString (s : string).

(** [den > 0 ? (num / den * 100).toFixed(2) : 0]. *)
Definition rate (exponential : spec_float -> string) (num den : Z) : JsValue :=
  if 0 <? den then JsString (toFixed2 exponential (percentage num den))
  else JsNumber 0.

Record ConversionRates := mkConversionRates {
  newToConnected : JsValue;
  connectedToQualified : JsValue;
  qualifiedToConverted : JsValue;
  overallConversion : JsValue
}.

Definition conversionRates (exponential : spec_float -> string) (funnel : Funnel)
    : ConversionRates :=
  mkConversionRates
    (rate exponential (connected funnel) (total funnel))
    (rate exponential (qualified funnel) (connected funnel))
    (rate exponential (converted funnel) (qualified funnel))
    (rate exponential (converted funnel) (total funnel)).

(** The exact percentage [100 * num / den], in hundredths, rounded to the
    nearest integer, upwards at a tie. *)
Definition exact_hundredths (num den : Z) : Z :=
  (2 * 10000 * num + den) / (2 * den).

(** [n / 100] is the hundredth nearest to [m * 2^e], the larger of the two
    at a tie: [-1/200 < n/100 - m * 2^e <= 1/200], without fractions. *)
Definition nearest_hundredth (n : Z) (m : positive) (e : Z) : Prop :=
  0 <= n /\
  match e with
  | Zneg k =>
      - 2 ^ Zpos k < n * 2 ^ (Zpos k + 1) - 200 * Zpos m <= 2 ^ Zpos k
  | _ => n = 100 * Zpos m * 2 ^ e
  end.

Definition no_exponent (x : spec_float) : string := "1e+21".

(** A funnel of 160 leads, 23 of them connected, 8 qualified, 1 converted. *)
Definition funnel_160 : Funnel := mkFunnel 160 23 8 1.

(** ** The outcomes of a bulk update, lead by lead *)




(** * Properties *)

(** ** Phone normalisation *)

Lemma phone_noise_succ i c : phone_noise (S i) c = negb (is_digit c).
Proof. reflexivity. Qed.

Lemma plus_not_digit c : Ascii.eqb c "+" = true -> is_digit c = false.
Proof. intros H. apply Ascii.eqb_eq in H. subst c. reflexivity. Qed.

(** Past the first offset the replacement keeps the digits and nothing else. *)
Lemma strip_phone_from_succ s : forall i, strip_phone_from (S i) s = digits_of s.
Proof.
  induction s as [|c r IH]; intros i; simpl; [reflexivity|].
  rewrite phone_noise_succ, IH.
  destruct (is_digit c); reflexivity.
Qed.

Lemma all_digits_digits_of s : all_digits (digits_of s) = true.
Proof.
  induction s as [|c r IH]; simpl; [reflexivity|].
  destruct (is_digit c) eqn:E; simpl; [rewrite E|]; exact IH.
Qed.

(** A string of digits is left as it is, from any offset. *)
Lemma strip_phone_from_all_digits s :
  all_digits s = true -> forall i, strip_phone_from i s = s.
Proof.
  induction s as [|c r IH]; simpl; intros H i; [reflexivity|].
  apply andb_true_iff in H as [Hc Hr].
  unfold phone_noise. rewrite Hc, andb_false_r. f_equal. apply IH, Hr.
Qed.

(** The shape of a normalised number: an optional leading [+], then the
    digits of the rest. *)
Lemma formatPhoneNumber_cons c r :
  formatPhoneNumber (String c r) =
  if Ascii.eqb c "+" || is_digit c then String c (digits_of r) else digits_of r.
Proof.
  unfold formatPhoneNumber. simpl. rewrite strip_phone_from_succ.
  unfold phone_noise. simpl.
  destruct (Ascii.eqb c "+") eqn:Ep; simpl.
  - reflexivity.
  - destruct (is_digit c); reflexivity.
Qed.

Example formatPhoneNumber_dashes : formatPhoneNumber "555-123-4567" = "5551234567".
Proof. reflexivity. Qed.

Example formatPhoneNumber_plus : formatPhoneNumber "+1 (555) 123-4567" = "+15551234567".
Proof. reflexivity. Qed.

Example formatPhoneNumber_inner_plus : formatPhoneNumber "a+1+2" = "12".
Proof. reflexivity. Qed.

(** C9.  Phone normalisation is idempotent: for every string [phone],
    normalising the result of [formatPhoneNumber] again (the same
    replacement the [pre('save')] hook applies) gives the same string. *)
Theorem formatPhoneNumber_idempotent (phone : string) :
  formatPhoneNumber (formatPhoneNumber phone) = formatPhoneNumber phone.
Proof.
  destruct phone as [|c r]; [reflexivity|].
  rewrite formatPhoneNumber_cons.
  destruct (Ascii.eqb c "+") eqn:Ep; simpl.
  - rewrite formatPhoneNumber_cons, Ep. simpl.
    f_equal.
    rewrite <- (strip_phone_from_succ (digits_of r) 0).
    apply strip_phone_from_all_digits, all_digits_digits_of.
  - destruct (is_digit c) eqn:Ed.
    + rewrite formatPhoneNumber_cons, Ep, Ed. simpl. f_equal.
      rewrite <- (strip_phone_from_succ (digits_of r) 0).
      apply strip_phone_from_all_digits, all_digits_digits_of.
    + unfold formatPhoneNumber.
      apply strip_phone_from_all_digits, all_digits_digits_of.
Qed.

(** The hook stores the phone number in that form, and saving again does not
    change it. *)
Lemma normalize_contact_phone d :
  phone (normalize_contact d) = formatPhoneNumber (phone d).
Proof.
  unfold normalize_contact. simpl.
  destruct (phone d) as [|c r]; reflexivity.
Qed.

(** ** Construction *)

Lemma normalize_contact_status_fields d :
  status (normalize_contact d) = status d /\
  statusHistory (normalize_contact d) = statusHistory d /\
  statusTimestamps (normalize_contact d) = statusTimestamps d /\
  isNew (normalize_contact d) = isNew d /\
  statusModified (normalize_contact d) = statusModified d /\
  _statusNotes (normalize_contact d) = _statusNotes d.
Proof. repeat split. Qed.

Lemma stamp_status_new now t : stamp_status "new" now t = t.
Proof. reflexivity. Qed.

(** What the hook does to a document that is new. *)
Lemma pre_save_new now d :
  isNew d = true ->
  status (pre_save now d) = status d /\
  statusHistory (pre_save now d) = [mkEntry (status d) now None] /\
  statusTimestamps (pre_save now d) =
    Some (stamp_status (status d) now
            (match statusTimestamps d with Some t => t | None => no_stamps end)).
Proof.
  intros Hnew. unfold pre_save, track_status.
  destruct (normalize_contact_status_fields d) as (Hs & Hh & Ht & Hn & Hm & _).
  rewrite Hm, Hn, Hnew, orb_true_r, Hs.
  cbn [status statusHistory statusTimestamps set_statusTimestamps set_statusHistory].
  rewrite Ht. auto.
Qed.

Lemma mark_saved_status_fields now d :
  status (mark_saved now d) = status d /\
  statusHistory (mark_saved now d) = statusHistory d /\
  statusTimestamps (mark_saved now d) = statusTimestamps d /\
  isNew (mark_saved now d) = false /\
  statusModified (mark_saved now d) = false.
Proof. repeat split. Qed.

(** A resolved [save] ran the hook and reset the change tracking. *)
Lemma save_resolved db now d d' :
  save db now d = (d', Resolved) -> d' = mark_saved now (pre_save now d).
Proof.
  unfold save. destruct (validation_error db d); [discriminate|].
  destruct (write_error db (pre_save now d)); [discriminate|].
  congruence.
Qed.

(** The state of a lead whose construction was accepted. *)
Lemma Construct_resolved_state db now id i l :
  Construct db now id i = (l, Resolved) ->
  status l = "new" /\
  statusHistory l = [mkEntry "new" now None] /\
  statusTimestamps l = Some no_stamps /\
  isNew l = false /\ statusModified l = false.
Proof.
  unfold Construct. intros H. apply save_resolved in H. subst l.
  destruct (pre_save_new now (new_Lead id i) eq_refl) as (Hs & Hh & Ht).
  destruct (mark_saved_status_fields now (pre_save now (new_Lead id i)))
    as (Ms & Mh & Mt & Mn & Mm).
  rewrite Ms, Mh, Mt, Hs, Hh, Ht. simpl. auto.
Qed.

(** C3.  For every construction input the persistence layer accepts, the
    lead produced by [Construct] has status "new", a status history of
    exactly one entry, whose status is "new" (stamped with the time of the
    save and without notes), and an empty [statusTimestamps] record. *)
Theorem Construct_starts_new db now id i l :
  Construct db now id i = (l, Resolved) ->
  status l = "new" /\
  length (statusHistory l) = 1%nat /\
  statusHistory l = [mkEntry "new" now None] /\
  statusTimestamps l = Some no_stamps.
Proof.
  intros H.
  destruct (Construct_resolved_state _ _ _ _ _ H) as (Hs & Hh & Ht & _).
  rewrite Hs, Hh, Ht. auto.
Qed.

Lemma Construct_starts_new_witness :
  Construct accepting 1000 "L1" jane_input = (jane, Resolved) /\
  status jane = "new" /\
  length (statusHistory jane) = 1%nat /\
  statusHistory jane = [mkEntry "new" 1000 None] /\
  statusTimestamps jane = Some no_stamps.
Proof.
  split; [reflexivity|].
  apply (Construct_starts_new accepting 1000 "L1" jane_input jane).
  reflexivity.
Defined.

(** The scenario of the specification: the stored contact fields. *)
Example jane_contact :
  name jane = Some "Jane Doe" /\ firstName jane = Some "Jane" /\
  lastName jane = Some "Doe" /\ phone jane = "5551234567" /\
  email jane = "jane@x.com".
Proof. repeat split. Qed.

(** ** Status transitions *)

Lemma staged_fields s n d :
  status (staged s n d) = s /\
  statusHistory (staged s n d) = statusHistory d /\
  statusTimestamps (staged s n d) = statusTimestamps d /\
  isNew (staged s n d) = isNew d /\
  statusModified (staged s n d) =
    statusModified d || isNew d || negb (String.eqb (status d) s).
Proof.
  unfold staged.
  destruct (truthy n && (0 <? Z.of_nat (length (statusHistory (set_status s d)))));
    repeat split.
Qed.

Lemma updateStatus_valid db now s n d :
  includes validStatuses s = true ->
  updateStatus db now s n d = save db now (staged s n d).
Proof. intros H. unfold updateStatus. rewrite H. reflexivity. Qed.

Lemma updateStatus_invalid db now s n d :
  includes validStatuses s = false ->
  exists msg, updateStatus db now s n d = (d, Rejected msg).
Proof. intros H. unfold updateStatus. rewrite H. simpl. eauto. Qed.

Lemma save_accepted db now d :
  always_accepts db -> save db now d = (mark_saved now (pre_save now d), Resolved).
Proof.
  intros Hdb. unfold save.
  destruct (Hdb d) as [-> _]. destruct (Hdb (pre_save now d)) as [_ ->].
  reflexivity.
Qed.

(** The hook on a stored document: nothing happens to the history when the
    path [status] is not modified, one entry is appended when it is. *)
Lemma pre_save_history now d :
  isNew d = false ->
  status (pre_save now d) = status d /\
  if statusModified d
  then exists e, statusHistory (pre_save now d) = (statusHistory d ++ [e])%list /\
                 entry_status e = status d /\ timestamp e = now
  else statusHistory (pre_save now d) = statusHistory d.
Proof.
  intros Hnew. unfold pre_save, track_status.
  destruct (normalize_contact_status_fields d) as (Hs & Hh & Ht & Hn & Hm & Hx).
  rewrite Hm, Hn, Hnew, orb_false_r, Hs.
  destruct (statusModified d); [|auto].
  rewrite Hx, Hh.
  destruct (truthy (_statusNotes d)); (split; [reflexivity|]);
    eexists; (split; [reflexivity|]); split; reflexivity.
Qed.

(** A call of [updateStatus] that resolved had a valid status, and leaves
    the staged document passed through the hook and marked as saved. *)
Lemma updateStatus_resolved db now s n d :
  snd (updateStatus db now s n d) = Resolved ->
  includes validStatuses s = true /\
  updateStatus db now s n d = (committed now s n d, Resolved).
Proof.
  intros H. destruct (includes validStatuses s) eqn:Hs.
  - split; [reflexivity|]. rewrite (updateStatus_valid _ _ _ _ _ Hs) in *.
    unfold committed, save in *.
    destruct (validation_error db (staged s n d)); [discriminate H|].
    destruct (write_error db (pre_save now (staged s n d)));
      [discriminate H|reflexivity].
  - destruct (updateStatus_invalid db now s n d Hs) as [msg Hm].
    rewrite Hm in H. discriminate H.
Qed.

(** A call with a valid status whose save the persistence layer accepts
    resolves. *)
Lemma updateStatus_accepted db now s n d :
  includes validStatuses s = true ->
  validation_error db (staged s n d) = None ->
  write_error db (pre_save now (staged s n d)) = None ->
  updateStatus db now s n d = (committed now s n d, Resolved).
Proof.
  intros Hs Hv Hw. rewrite (updateStatus_valid _ _ _ _ _ Hs).
  unfold save, committed. now rewrite Hv, Hw.
Qed.

(** One resolved transition of a stored document. *)
Lemma updateStatus_step db now s n d :
  snd (updateStatus db now s n d) = Resolved ->
  isNew d = false -> statusModified d = false ->
  let d' := fst (updateStatus db now s n d) in
  isNew d' = false /\ statusModified d' = false /\ status d' = s /\
  length (statusHistory d') =
    (length (statusHistory d) + if String.eqb (status d) s then 0 else 1)%nat.
Proof.
  intros Hres Hnew Hmod.
  destruct (updateStatus_resolved _ _ _ _ _ Hres) as [Hs ->].
  unfold committed. cbn [fst].
  destruct (staged_fields s n d) as (Fs & Fh & _ & Fn & Fm).
  rewrite Hnew in Fn. rewrite Hnew, Hmod in Fm. simpl in Fm.
  destruct (pre_save_history now (staged s n d) Fn) as [Ps Ph].
  destruct (mark_saved_status_fields now (pre_save now (staged s n d)))
    as (Ms & Mh & _ & Mn & Mm).
  rewrite Mn, Mm, Ms, Mh, Ps, Fs. repeat split.
  rewrite Fm in Ph. destruct (String.eqb (status d) s); simpl in Ph.
  - rewrite Ph, Fh. lia.
  - destruct Ph as (e & -> & _). rewrite length_app, Fh. reflexivity.
Qed.

Lemma history_length_from db ts :
  forall d, all_resolved db ts d ->
  isNew d = false -> statusModified d = false ->
  length (statusHistory (apply_transitions db ts d)) =
    (length (statusHistory d) + status_changes (status d) ts)%nat.
Proof.
  induction ts as [|t r IH]; intros d Hres Hnew Hmod; simpl.
  - lia.
  - destruct Hres as [Hr Hrest].
    destruct (updateStatus_step db (at_time t) (to_status t) (with_notes t) d
                Hr Hnew Hmod) as (Hn & Hm & Hs & Hl).
    rewrite (IH _ Hrest Hn Hm), Hl, Hs. lia.
Qed.

(** With a layer that accepts every document, every run of transitions with
    valid statuses resolves. *)
Lemma always_accepts_all_resolved db ts :
  always_accepts db -> Forall valid_transition ts ->
  forall d, all_resolved db ts d.
Proof.
  intros Hdb Hts. induction Hts as [|t r Ht _ IH]; intros d; cbn [all_resolved];
    [exact I|].
  split; [|apply IH].
  rewrite (updateStatus_valid _ _ _ _ _ Ht), (save_accepted _ _ _ Hdb).
  reflexivity.
Qed.

(** C1, as the code has it.  For a freshly constructed lead and a sequence of
    calls of [updateStatus] on it, each of which resolved (its status was one
    of the four and the persistence layer accepted that very save), the
    status history has one entry for the construction and one more for each
    transition whose target differs from the status the lead holds at that
    moment; a transition to the status already held appends nothing. *)
Theorem history_length_counts_changes db now id i l ts :
  Construct db now id i = (l, Resolved) ->
  all_resolved db ts l ->
  length (statusHistory (apply_transitions db ts l)) =
    (1 + status_changes "new" ts)%nat.
Proof.
  intros Hc Hts.
  destruct (Construct_resolved_state _ _ _ _ _ Hc) as (Hs & Hh & _ & Hn & Hm).
  rewrite (history_length_from db ts l Hts Hn Hm), Hh, Hs. reflexivity.
Qed.

Lemma accepting_always_accepts : always_accepts accepting.
Proof. intros d. split; reflexivity. Qed.

(** The validating layer is not one that accepts everything. *)
Example validating_refuses :
  snd (Construct validating 1000 "L2"
         (mkInput None (Some "joe") None "joe@x.com" "12345" None "website" None))
  = Rejected "Phone number must contain 10-15 digits".
Proof. vm_compute. reflexivity. Qed.

Lemma jane_constructed_validating :
  Construct validating 1000 "L1" jane_input = (jane, Resolved).
Proof. vm_compute. reflexivity. Qed.

Lemma jane_journey_resolved : all_resolved validating jane_journey jane.
Proof. vm_compute. repeat split. Qed.

Lemma history_length_counts_changes_witness :
  Construct validating 1000 "L1" jane_input = (jane, Resolved) /\
  all_resolved validating jane_journey jane /\
  length (statusHistory (apply_transitions validating jane_journey jane)) =
    (1 + status_changes "new" jane_journey)%nat.
Proof.
  split; [exact jane_constructed_validating|].
  split; [exact jane_journey_resolved|].
  apply (history_length_counts_changes validating 1000 "L1" jane_input jane
           jane_journey jane_constructed_validating jane_journey_resolved).
Defined.

(** The scenario of the specification: three changes, four entries. *)
Example jane_journey_history :
  map entry_status (statusHistory (apply_transitions accepting jane_journey jane))
  = ["new"; "connected"; "qualified"; "connected"].
Proof. reflexivity. Qed.

(** C1, as the specification words it, fails: a transition to the status
    the lead already holds is accepted and leaves the history as it was, so
    after one transition of a fresh lead the history has one entry, not two.
    The same holds for the document read back from the collection. *)
Lemma same_status_appends_nothing :
  Construct accepting 1000 "L1" jane_input = (jane, Resolved) /\
  valid_transition (mkTransition "new" None 2000) /\
  snd (updateStatus accepting 2000 "new" None jane) = Resolved /\
  statusHistory (apply_transitions accepting [mkTransition "new" None 2000] jane)
    = [mkEntry "new" 1000 None] /\
  statusHistory (apply_transitions accepting [mkTransition "new" None 2000]
                   (hydrate jane))
    = [mkEntry "new" 1000 None] /\
  length (statusHistory
            (apply_transitions accepting [mkTransition "new" None 2000] jane))
    <> (length [mkTransition "new" None 2000] + 1)%nat.
Proof. repeat split. simpl. discriminate. Qed.

(** ** Stage timestamps *)

Lemma stamp_status_keeps_connectedAt s now t x :
  connectedAt t = Some x -> connectedAt (stamp_status s now t) = Some x.
Proof.
  intros H. unfold stamp_status.
  destruct (String.eqb s "connected"); [rewrite H; exact H|].
  destruct (String.eqb s "qualified"); [destruct (qualifiedAt t); exact H|].
  destruct (String.eqb s "converted"); [destruct (convertedAt t); exact H|].
  exact H.
Qed.

Lemma stamp_status_keeps_qualifiedAt s now t x :
  qualifiedAt t = Some x -> qualifiedAt (stamp_status s now t) = Some x.
Proof.
  intros H. unfold stamp_status.
  destruct (String.eqb s "connected"); [destruct (connectedAt t); exact H|].
  destruct (String.eqb s "qualified"); [rewrite H; exact H|].
  destruct (String.eqb s "converted"); [destruct (convertedAt t); exact H|].
  exact H.
Qed.

Lemma stamp_status_keeps_convertedAt s now t x :
  convertedAt t = Some x -> convertedAt (stamp_status s now t) = Some x.
Proof.
  intros H. unfold stamp_status.
  destruct (String.eqb s "connected"); [destruct (connectedAt t); exact H|].
  destruct (String.eqb s "qualified"); [destruct (qualifiedAt t); exact H|].
  destruct (String.eqb s "converted"); [rewrite H; exact H|].
  exact H.
Qed.

Lemma stage_timestamp_set_timestamps st t d :
  stage_timestamp st (set_statusTimestamps (Some t) d) =
  match st with
  | Connected => connectedAt t
  | Qualified => qualifiedAt t
  | Converted => convertedAt t
  end.
Proof. reflexivity. Qed.

(** The hook never replaces a stage timestamp that is set. *)
Lemma pre_save_keeps_stage now st d x :
  stage_timestamp st d = Some x -> stage_timestamp st (pre_save now d) = Some x.
Proof.
  intros H. unfold pre_save, track_status.
  destruct (normalize_contact_status_fields d) as (Hs & Hh & Ht & Hn & Hm & Hx).
  assert (Hst : stage_timestamp st (normalize_contact d) = Some x)
    by (unfold stage_timestamp; rewrite Ht; exact H).
  destruct (statusModified (normalize_contact d) || isNew (normalize_contact d));
    [|exact Hst].
  rewrite stage_timestamp_set_timestamps.
  set (d1 := if isNew (normalize_contact d) then _ else _).
  assert (Hd1 : statusTimestamps d1 = statusTimestamps d).
  { subst d1. rewrite <- Ht.
    destruct (isNew (normalize_contact d)); [reflexivity|].
    destruct (truthy (_statusNotes (normalize_contact d))); reflexivity. }
  rewrite Hd1. unfold stage_timestamp in H.
  destruct (statusTimestamps d) as [t|]; [|discriminate].
  destruct st.
  - apply stamp_status_keeps_connectedAt, H.
  - apply stamp_status_keeps_qualifiedAt, H.
  - apply stamp_status_keeps_convertedAt, H.
Qed.

Lemma save_keeps_stage db now st d x :
  stage_timestamp st d = Some x ->
  stage_timestamp st (fst (save db now d)) = Some x.
Proof.
  intros H. unfold save.
  destruct (validation_error db d); [exact H|].
  destruct (write_error db (pre_save now d)); cbn [fst].
  - apply pre_save_keeps_stage, H.
  - change (stage_timestamp st (mark_saved now (pre_save now d)))
      with (stage_timestamp st (pre_save now d)).
    apply pre_save_keeps_stage, H.
Qed.

Lemma updateStatus_keeps_stage db now s n st d x :
  stage_timestamp st d = Some x ->
  stage_timestamp st (fst (updateStatus db now s n d)) = Some x.
Proof.
  intros H. destruct (includes validStatuses s) eqn:Hs.
  - rewrite (updateStatus_valid _ _ _ _ _ Hs). apply save_keeps_stage.
    unfold stage_timestamp.
    destruct (staged_fields s n d) as (_ & _ & -> & _). exact H.
  - destruct (updateStatus_invalid db now s n d Hs) as [msg ->]. exact H.
Qed.

(** C2.  For every lead, every stage (connected, qualified, converted) and
    every sequence of calls of [updateStatus] - whatever their targets, and
    whether the persistence layer accepts them or not: a stage timestamp
    that is set keeps its value. *)
Theorem stage_timestamp_set_once db st d x ts :
  stage_timestamp st d = Some x ->
  stage_timestamp st (apply_transitions db ts d) = Some x.
Proof.
  revert d. induction ts as [|t r IH]; intros d H; simpl.
  - exact H.
  - apply IH, updateStatus_keeps_stage, H.
Qed.

Lemma stage_timestamp_set_once_witness :
  let d := apply_transitions accepting (firstn 2 jane_journey) jane in
  stage_timestamp Qualified d = Some 3000 /\
  stage_timestamp Qualified
    (apply_transitions accepting
       [mkTransition "connected" None 4000; mkTransition "qualified" None 5000] d)
  = Some 3000.
Proof.
  split; [reflexivity|].
  apply (stage_timestamp_set_once accepting Qualified
           (apply_transitions accepting (firstn 2 jane_journey) jane) 3000).
  reflexivity.
Defined.

(** ** Progression metrics *)

Section MetricsLoop.

Variable now : Z.

Lemma metrics_loop_total rest : forall current m,
  totalProgressions (metrics_loop now current rest m) = totalProgressions m.
Proof.
  induction rest as [|next rest' IH]; intros current m; simpl; [reflexivity|].
  now rewrite IH.
Qed.

(** The duration of the entry that is last in the history. *)
Lemma metrics_loop_current rest : forall current m e,
  last (current :: rest) = Some e ->
  currentStatusDuration (metrics_loop now current rest m) =
  Some (now - timestamp e).
Proof.
  induction rest as [|next rest' IH]; intros current m e He.
  - injection He as <-. reflexivity.
  - cbn [metrics_loop]. apply IH. exact He.
Qed.

(** A status that no entry with a successor carries keeps the value the
    map had before the loop. *)
Lemma metrics_loop_untouched rest : forall current m s,
  (forall i e, (current :: rest) !! i = Some e ->
               is_Some ((current :: rest) !! S i) -> entry_status e <> s) ->
  timeInEachStatus (metrics_loop now current rest m) !! s =
  timeInEachStatus m !! s.
Proof.
  induction rest as [|next rest' IH]; intros current m s H; [reflexivity|].
  cbn [metrics_loop]. rewrite IH.
  - cbn [timeInEachStatus]. apply lookup_insert_ne.
    apply (H 0%nat current); [reflexivity|]. simpl. eauto.
  - intros i e Hi Hn. apply (H (S i) e); assumption.
Qed.

(** The entry at index [i] has a successor, and no later entry with a
    successor carries its status: the map holds the time between the two. *)
Lemma metrics_loop_last_write rest : forall current m i e e',
  (current :: rest) !! i = Some e ->
  (current :: rest) !! S i = Some e' ->
  (forall j ej, (i < j)%nat -> (current :: rest) !! j = Some ej ->
                is_Some ((current :: rest) !! S j) ->
                entry_status ej <> entry_status e) ->
  timeInEachStatus (metrics_loop now current rest m) !! entry_status e =
  Some (timestamp e' - timestamp e).
Proof.
  induction rest as [|next rest' IH]; intros current m i e e' Hi Hn Hlater.
  - destruct i; discriminate.
  - cbn [metrics_loop]. destruct i as [|i].
    + injection Hi as <-. injection Hn as <-.
      rewrite metrics_loop_untouched.
      * cbn [timeInEachStatus]. apply lookup_insert_eq.
      * intros j ej Hj Hs. apply (Hlater (S j) ej); [lia|assumption..].
    + apply (IH next _ i e e'); [exact Hi|exact Hn|].
      intros j ej Hlt Hj Hs. apply (Hlater (S j) ej); [lia|assumption..].
Qed.

End MetricsLoop.

(** C7.  [getProgressionMetrics] returns [null] exactly when the status
    history is empty.  Otherwise [totalProgressions] is the length of the
    history minus 1, and the map [timeInEachStatus] is this: for an entry
    [i] with a successor, such that no later entry with a successor has the
    same status, the map holds [timestamp (i+1) - timestamp i] under the
    status of [i] (the most recent duration of a status that recurs, not a
    sum); a status that no entry with a successor has is absent from the
    map.  [currentStatusDuration] is the time since the last entry. *)
Theorem getProgressionMetrics_spec (now : Z) (d : Lead) :
  (getProgressionMetrics now d = None <-> statusHistory d = []) /\
  (forall m, getProgressionMetrics now d = Some m ->
     totalProgressions m = Z.of_nat (length (statusHistory d)) - 1 /\
     (forall i e e',
        statusHistory d !! i = Some e ->
        statusHistory d !! S i = Some e' ->
        (forall j ej, (i < j)%nat -> statusHistory d !! j = Some ej ->
                      is_Some (statusHistory d !! S j) ->
                      entry_status ej <> entry_status e) ->
        timeInEachStatus m !! entry_status e =
          Some (timestamp e' - timestamp e)) /\
     (forall s,
        (forall i e, statusHistory d !! i = Some e ->
                     is_Some (statusHistory d !! S i) -> entry_status e <> s) ->
        timeInEachStatus m !! s = None) /\
     (forall e, last (statusHistory d) = Some e ->
        currentStatusDuration m = Some (now - timestamp e))).
Proof.
  unfold getProgressionMetrics.
  destruct (statusHistory d) as [|first rest] eqn:Hh.
  - split; [tauto|]. discriminate.
  - split; [split; discriminate|].
    intros m [= <-]. repeat split.
    + apply metrics_loop_total.
    + intros i e e' Hi Hn Hlater. now apply metrics_loop_last_write with (i := i).
    + intros s Hs. rewrite metrics_loop_untouched by exact Hs. apply lookup_empty.
    + intros e He. now apply metrics_loop_current.
Qed.

(** On [jane_returns] the status connected was held from 2000 to 3000 and
    from 4000 to 6000: the map holds the second duration. *)
Lemma getProgressionMetrics_spec_witness :
  exists m, getProgressionMetrics 7000 jane_returns = Some m /\
            totalProgressions m = 4 /\
            timeInEachStatus m !! "connected" = Some 2000 /\
            timeInEachStatus m !! "converted" = None /\
            currentStatusDuration m = Some 1000.
Proof.
  destruct (getProgressionMetrics 7000 jane_returns) as [m|] eqn:Hm;
    [|discriminate].
  exists m. split; [reflexivity|].
  destruct (getProgressionMetrics_spec 7000 jane_returns) as [_ H].
  destruct (H m Hm) as (Ht & Hlast & Hnone & Hcur).
  split; [exact Ht|]. split; [|split].
  - apply (Hlast 3%nat (mkEntry "connected" 4000 None)
                 (mkEntry "converted" 6000 None)); [reflexivity..|].
    intros j ej Hlt Hj [x Hs].
    do 4 (destruct j as [|j]; [lia|]). destruct j; discriminate.
  - apply Hnone. intros i e Hi [x Hs].
    do 4 (destruct i as [|i]; [injection Hi as <-; discriminate|]).
    destruct i; discriminate.
  - apply (Hcur (mkEntry "converted" 6000 None)). reflexivity.
Defined.

Example jane_returns_metrics :
  getProgressionMetrics 7000 jane_returns =
  Some (mkMetrics 4
          (<["connected" := 2000]> (<["qualified" := 1000]>
             (<["connected" := 1000]> (<["new" := 1000]> ∅))))
          (Some 1000)).
Proof. reflexivity. Qed.

(** ** Conversion funnel *)

Section SumCond.

Variables p q : Lead -> bool.
Hypothesis p_implies_q : forall d, p d = true -> q d = true.

Lemma sum_cond_fold_mono docs : forall a b,
  a <= b ->
  fold_left (fun acc d => acc + (if p d then 1 else 0)) docs a <=
  fold_left (fun acc d => acc + (if q d then 1 else 0)) docs b.
Proof.
  induction docs as [|d r IH]; intros a b Hab; simpl; [exact Hab|].
  apply IH.
  destruct (p d) eqn:Hp; [rewrite (p_implies_q d Hp)|destruct (q d)]; lia.
Qed.

Lemma sum_cond_mono docs : sum_cond p docs <= sum_cond q docs.
Proof. apply sum_cond_fold_mono. lia. Qed.

End SumCond.

Lemma sum_cond_nonneg p docs : 0 <= sum_cond p docs.
Proof.
  unfold sum_cond. generalize 0 at 1 3 as a.
  assert (H : forall a b, a <= b ->
            a <= fold_left (fun acc d => acc + (if p d then 1 else 0)) docs b).
  { induction docs as [|d r IH]; intros a b Hab; simpl; [exact Hab|].
    apply IH. destruct (p d); lia. }
  intros a. apply H. lia.
Qed.

(** [total] counts every document. *)
Lemma sum_cond_all docs : sum_cond (fun _ => true) docs = Z.of_nat (length docs).
Proof.
  unfold sum_cond.
  assert (H : forall a, fold_left (fun acc (_ : Lead) => acc + 1) docs a
                        = a + Z.of_nat (length docs)).
  { induction docs as [|d r IH]; intros a; simpl length; simpl fold_left.
    - lia.
    - rewrite IH. lia. }
  apply H.
Qed.

Lemma funnel_ordered (f : Funnel) docs :
  conversionFunnel docs = [f] ->
  total f >= connected f /\ connected f >= qualified f /\
  qualified f >= converted f /\ converted f >= 0.
Proof.
  destruct docs as [|d r]; [discriminate|].
  unfold conversionFunnel. intros [= <-]. cbn [total connected qualified converted].
  repeat split; apply Z.le_ge.
  - apply sum_cond_mono. reflexivity.
  - apply sum_cond_mono. intros x.
    destruct (status_is "connected" x), (status_is "qualified" x),
      (status_is "converted" x); simpl; auto.
  - apply sum_cond_mono. intros x.
    destruct (status_is "qualified" x), (status_is "converted" x); simpl; auto.
  - apply sum_cond_nonneg.
Qed.

(** C5.  For every set of leads - in particular when every status is one of
    the four values of the enumeration - the funnel the analytics report
    (the document of the facet, or the controller's zero funnel when the
    collection is empty) satisfies
    total >= connected >= qualified >= converted >= 0, where [total] is the
    number of leads and the three other counts are taken on the current
    status, as the specification describes them. *)
Theorem conversion_funnel_monotone (docs : list Lead) :
  let f := funnel_of docs in
  total f = Z.of_nat (length docs) /\
  connected f = sum_cond (fun d => status_is "connected" d
                          || status_is "qualified" d || status_is "converted" d) docs /\
  qualified f = sum_cond (fun d => status_is "qualified" d
                          || status_is "converted" d) docs /\
  converted f = sum_cond (status_is "converted") docs /\
  total f >= connected f /\ connected f >= qualified f /\
  qualified f >= converted f /\ converted f >= 0.
Proof.
  unfold funnel_of. destruct (conversionFunnel docs) as [|f r] eqn:Hf.
  - destruct docs; [|discriminate]. cbn. repeat split; lia.
  - destruct docs as [|d ds]; [discriminate|].
    assert (Hr : r = []) by (unfold conversionFunnel in Hf; congruence).
    subst r. split; [|split; [|split; [|split]]].
    + injection Hf as <-. apply sum_cond_all.
    + injection Hf as <-. reflexivity.
    + injection Hf as <-. reflexivity.
    + injection Hf as <-. reflexivity.
    + apply (funnel_ordered f (d :: ds) Hf).
Qed.

Example five_leads_funnel : funnel_of five_leads = mkFunnel 5 3 2 0.
Proof. reflexivity. Qed.

(** ** Average progression times *)

(** ** Conversion rates *)

Lemma pow2_succ k : 2 ^ (Zpos k + 1) = 2 * 2 ^ Zpos k.
Proof. apply (Z.pow_succ_r 2 (Zpos k)). lia. Qed.

(** [fixed2] is the hundredth nearest to the double, the larger of the two
    at a tie. *)
Lemma fixed2_nearest m e : nearest_hundredth (fixed2 m e) m e.
Proof.
  unfold nearest_hundredth, fixed2. destruct e as [|p|k]; cbv beta iota.
  - split; [|reflexivity]. rewrite Z.pow_0_r. lia.
  - split; [|reflexivity].
    assert (0 < 2 ^ Zpos p) by (apply Z.pow_pos_nonneg; lia). nia.
  - assert (HP : 0 < 2 ^ Zpos k) by (apply Z.pow_pos_nonneg; lia).
    rewrite pow2_succ. set (P := 2 ^ Zpos k) in *.
    pose proof (Z.div_mod (200 * Zpos m + P) (2 * P) ltac:(lia)) as Hd.
    pose proof (Z.mod_pos_bound (200 * Zpos m + P) (2 * P) ltac:(lia)) as Hm.
    split; [apply Z.div_pos; lia|].
    set (q := (200 * Zpos m + P) / (2 * P)) in *.
    set (r := (200 * Zpos m + P) mod (2 * P)) in *.
    nia.
Qed.

(** There is one such hundredth. *)
Lemma nearest_hundredth_unique n m e :
  nearest_hundredth n m e -> n = fixed2 m e.
Proof.
  unfold nearest_hundredth, fixed2. destruct e as [|p|k]; cbv beta iota;
    intros [Hn H]; [exact H|exact H|].
  assert (HP : 0 < 2 ^ Zpos k) by (apply Z.pow_pos_nonneg; lia).
  rewrite pow2_succ in *. set (P := 2 ^ Zpos k) in *.
  apply (Z.div_unique_pos (200 * Zpos m + P) (2 * P) n
           (200 * Zpos m + P - 2 * P * n)); lia.
Qed.

Lemma rate_zero_denominator exponential num den :
  den <= 0 -> rate exponential num den = JsNumber 0.
Proof.
  intros H. unfold rate. destruct (Z.ltb_spec 0 den); [lia|reflexivity].
Qed.

Lemma rate_positive_denominator exponential num den :
  0 < den ->
  rate exponential num den =
    JsString (toFixed2 exponential (percentage num den)).
Proof.
  intros H. unfold rate. destruct (Z.ltb_spec 0 den); [reflexivity|lia].
Qed.

(** C6, as the code has it.  Each of the four rates takes the numerator and
    the denominator the specification names.  A rate is the number 0 when
    its denominator is not positive.  Otherwise it is the string that
    [toFixed(2)] gives for the double [num / den * 100], computed in binary
    floating point: when that double is [m * 2^e], positive and below
    10^21, the string shows the one hundredth nearest to the double (the
    larger of the two at a tie), which is not always the hundredth nearest
    to the exact percentage. *)
Theorem conversionRates_spec exponential funnel :
  newToConnected (conversionRates exponential funnel) =
    rate exponential (connected funnel) (total funnel) /\
  connectedToQualified (conversionRates exponential funnel) =
    rate exponential (qualified funnel) (connected funnel) /\
  qualifiedToConverted (conversionRates exponential funnel) =
    rate exponential (converted funnel) (qualified funnel) /\
  overallConversion (conversionRates exponential funnel) =
    rate exponential (converted funnel) (total funnel) /\
  (forall num den, den <= 0 -> rate exponential num den = JsNumber 0) /\
  (forall num den, 0 < den ->
     rate exponential num den =
       JsString (toFixed2 exponential (percentage num den))) /\
  (forall num den m e,
     0 < den -> percentage num den = S754_finite false m e ->
     below_1e21 m e = true ->
     rate exponential num den = JsString (render (fixed2 m e)) /\
     nearest_hundredth (fixed2 m e) m e /\
     forall n, nearest_hundredth n m e -> n = fixed2 m e).
Proof.
  split; [reflexivity|]. split; [reflexivity|]. split; [reflexivity|].
  split; [reflexivity|].
  split; [intros num den; apply rate_zero_denominator|].
  split; [intros num den; apply rate_positive_denominator|].
  intros num den m e Hden Hx Hb.
  split; [|split; [apply fixed2_nearest|intros n; apply nearest_hundredth_unique]].
  rewrite (rate_positive_denominator exponential num den Hden), Hx.
  unfold toFixed2. rewrite Hb. reflexivity.
Qed.

Lemma percentage_23_of_160 :
  percentage 23 160 = S754_finite false 8092405580431359 (-49).
Proof. vm_compute. reflexivity. Qed.

(** 23 connected leads of 160: the double is 8092405580431359 * 2^-49, a
    little below 14.375, and the rate shown is 14.37. *)
Lemma conversionRates_spec_witness :
  0 < total funnel_160 /\
  percentage (connected funnel_160) (total funnel_160) =
    S754_finite false 8092405580431359 (-49) /\
  below_1e21 8092405580431359 (-49) = true /\
  fixed2 8092405580431359 (-49) = 1437 /\
  newToConnected (conversionRates no_exponent funnel_160) = JsString "14.37" /\
  rate no_exponent 0 0 = JsNumber 0.
Proof.
  assert (Hb : below_1e21 8092405580431359 (-49) = true)
    by (vm_compute; reflexivity).
  assert (Hf : fixed2 8092405580431359 (-49) = 1437)
    by (vm_compute; reflexivity).
  assert (Hr : render 1437 = "14.37") by (vm_compute; reflexivity).
  destruct (conversionRates_spec no_exponent funnel_160)
    as (H1 & _ & _ & _ & H0 & _ & Hs).
  destruct (Hs 23 160 8092405580431359%positive (-49) ltac:(lia)
              percentage_23_of_160 Hb)
    as (Hrate & _ & _).
  split; [vm_compute; reflexivity|]. split; [exact percentage_23_of_160|].
  split; [exact Hb|]. split; [exact Hf|].
  split; [|apply H0; lia].
  rewrite H1. change (connected funnel_160) with 23.
  change (total funnel_160) with 160. rewrite Hrate, Hf, Hr. reflexivity.
Defined.

(** C6, as the specification words it, fails: the rates are not the exact
    percentages rounded to two decimal places.  With 160 leads, 23 of them
    connected and 1 converted, the exact percentages are 14.375 and 0.625.
    The handler shows 14.37 for the first, rounded down, and 0.63 for the
    second, rounded up: no rule for rounding the exact percentage gives
    both, and rounding to the nearest hundredth, upwards at a tie, gives
    14.38 for the first. *)
Lemma rate_ties_round_both_ways :
  conversionRates no_exponent funnel_160 =
    mkConversionRates (JsString "14.37") (JsString "34.78") (JsString "12.50")
                      (JsString "0.63") /\
  1000 * (100 * connected funnel_160) = 14375 * total funnel_160 /\
  1000 * (100 * converted funnel_160) = 625 * total funnel_160 /\
  exact_hundredths (connected funnel_160) (total funnel_160) = 1438 /\
  render 1438 = "14.38" /\
  exact_hundredths (converted funnel_160) (total funnel_160) = 63 /\
  newToConnected (conversionRates no_exponent funnel_160) <>
    JsString (render (exact_hundredths (connected funnel_160)
                        (total funnel_160))).
Proof.
  split; [vm_compute; reflexivity|]. split; [reflexivity|].
  split; [reflexivity|]. split; [reflexivity|].
  split; [vm_compute; reflexivity|]. split; [reflexivity|].
  vm_compute. discriminate.
Qed.

(** Rates the two computations agree on. *)
Example rate_samples :
  rate no_exponent 40 85 = JsString "47.06" /\
  rate no_exponent 1 3 = JsString "33.33" /\
  rate no_exponent 2 3 = JsString "66.67" /\
  rate no_exponent 160 160 = JsString "100.00" /\
  rate no_exponent 0 160 = JsString "0.00" /\
  rate no_exponent 0 0 = JsNumber 0.
Proof. vm_compute. repeat split. Qed.

(** The value [$avg] receives for a lead: the number of milliseconds from
    creation to the stage when the stage timestamp is set, [null] when it is
    not (the subtraction yields [null] on an absent path). *)
Lemma time_to_stage_value st d :
  time_to_stage st d =
  match stage_timestamp st d with
  | Some t => BLong (t - createdAt d)
  | None => BNull
  end.
Proof.
  unfold time_to_stage, stamp_path, createdAt_path.
  destruct (stage_timestamp st d); reflexivity.
Qed.

Lemma has_stage_timestamp_false st d :
  has_stage_timestamp d = false -> stage_timestamp st d = None.
Proof.
  unfold has_stage_timestamp, stamp_path. intros H.
  destruct (stage_timestamp Connected d) eqn:H1; [discriminate|].
  destruct (stage_timestamp Qualified d) eqn:H2; [discriminate|].
  destruct (stage_timestamp Converted d) eqn:H3; [discriminate|].
  destruct st; assumption.
Qed.

Lemma numeric_cons v vs :
  numeric (v :: vs) =
  match v with BLong n => n :: numeric vs | _ => numeric vs end.
Proof. destruct v; reflexivity. Qed.

Lemma stage_durations_cons st d r :
  stage_durations st (d :: r) =
  match stage_timestamp st d with
  | Some t => (t - createdAt d) :: stage_durations st r
  | None => stage_durations st r
  end.
Proof.
  unfold stage_durations. cbn. destruct (stage_timestamp st d); reflexivity.
Qed.

(** The numbers averaged for a stage are the durations of exactly the leads
    that have the timestamp of that stage. *)
Lemma numeric_time_to_stage st docs :
  numeric (map (time_to_stage st) (List.filter has_stage_timestamp docs)) =
  stage_durations st docs.
Proof.
  induction docs as [|d r IH]; [reflexivity|].
  rewrite stage_durations_cons. cbn [List.filter].
  destruct (has_stage_timestamp d) eqn:Hd.
  - rewrite map_cons, numeric_cons, time_to_stage_value, IH.
    destruct (stage_timestamp st d); reflexivity.
  - rewrite (has_stage_timestamp_false st d Hd). exact IH.
Qed.

Lemma filter_nil_iff {A} (f : A -> bool) l :
  List.filter f l = [] <-> forall x, In x l -> f x = false.
Proof.
  induction l as [|a r IH]; simpl.
  - split; [intros _ x []|reflexivity].
  - destruct (f a) eqn:Ha; split.
    + discriminate.
    + intros H. specialize (H a (or_introl eq_refl)). congruence.
    + intros H x [<-|Hx]; [exact Ha|]. now apply IH.
    + intros H. apply IH. intros x Hx. apply H. now right.
Qed.

(** The [$match] stage lets a lead through exactly when one of its three
    stage timestamps is set. *)
Lemma has_stage_timestamp_none d :
  has_stage_timestamp d = false <-> forall st, stage_timestamp st d = None.
Proof.
  split.
  - intros H st. exact (has_stage_timestamp_false st d H).
  - intros H. unfold has_stage_timestamp, stamp_path.
    rewrite (H Connected), (H Qualified), (H Converted). reflexivity.
Qed.

(** C8.  The facet yields no document exactly when no lead has any of the
    three stage timestamps; otherwise it yields one document, in which each
    average is the mean of [stageTimestamp - createdAt] over exactly the
    leads whose timestamp of that stage is set: a lead without it adds
    neither to the sum nor to the count. *)
Theorem averageProgressionTimes_spec (docs : list Lead) :
  (averageProgressionTimes docs = [] <->
     forall d, In d docs -> forall st, stage_timestamp st d = None) /\
  (forall d st t, In d docs -> stage_timestamp st d = Some t ->
     averageProgressionTimes docs =
       [mkAverageTimes (mean (stage_durations Connected docs))
                       (mean (stage_durations Qualified docs))
                       (mean (stage_durations Converted docs))]).
Proof.
  assert (Hnil : averageProgressionTimes docs = [] <->
                 forall d, In d docs -> forall st, stage_timestamp st d = None).
  { transitivity (List.filter has_stage_timestamp docs = []).
    - unfold averageProgressionTimes.
      destruct (List.filter has_stage_timestamp docs); split;
        [reflexivity|reflexivity|discriminate|discriminate].
    - rewrite filter_nil_iff. split; intros H d Hd;
        apply has_stage_timestamp_none; auto. }
  split; [exact Hnil|].
  intros d st t Hin Hd. unfold averageProgressionTimes, bson_avg.
  rewrite <- !numeric_time_to_stage.
  destruct (List.filter has_stage_timestamp docs) as [|x r] eqn:Hf;
    [|reflexivity].
  apply filter_nil_iff with (x := d) in Hf; [|exact Hin].
  rewrite (has_stage_timestamp_false st d Hf) in Hd. discriminate.
Qed.

(** Five leads, two of them with [connectedAt]: the average time to connect
    is (1000 + 3000) / 2, an average over those two. *)
Lemma averageProgressionTimes_spec_witness :
  stage_durations Connected five_leads = [1000; 3000] /\
  averageProgressionTimes five_leads =
    [mkAverageTimes (Some (4000 # 2)%Q) (Some (8500 # 2)%Q) None].
Proof.
  split; [reflexivity|].
  destruct (averageProgressionTimes_spec five_leads) as [_ H].
  apply (H (stored_lead "a" "connected" (mkStamps (Some 1000) None None) 0)
           Connected 1000).
  - left. reflexivity.
  - reflexivity.
Defined.

(** Leads without any stage timestamp give no document, not a document of
    zeros. *)
Example averageProgressionTimes_no_stamps :
  averageProgressionTimes
    [stored_lead "d" "new" no_stamps 0; stored_lead "e" "new" no_stamps 5] = [].
Proof. reflexivity. Qed.

(** ** Bulk status update *)

Lemma pre_save_id now d : _id (pre_save now d) = _id d.
Proof.
  unfold pre_save, track_status.
  destruct (statusModified (normalize_contact d) || isNew (normalize_contact d));
    [|reflexivity].
  destruct (isNew (normalize_contact d)); [reflexivity|].
  destruct (truthy (_statusNotes (normalize_contact d))); reflexivity.
Qed.

Lemma save_id db now d : _id (fst (save db now d)) = _id d.
Proof.
  unfold save. destruct (validation_error db d); [reflexivity|].
  destruct (write_error db (pre_save now d)); cbn [fst].
  - apply pre_save_id.
  - change (_id (mark_saved now (pre_save now d))) with (_id (pre_save now d)).
    apply pre_save_id.
Qed.

Lemma staged_id s n d : _id (staged s n d) = _id d.
Proof.
  unfold staged.
  destruct (truthy n && (0 <? Z.of_nat (length (statusHistory (set_status s d)))));
    reflexivity.
Qed.

Lemma updateStatus_id db now s n d : _id (fst (updateStatus db now s n d)) = _id d.
Proof.
  destruct (includes validStatuses s) eqn:Hs.
  - rewrite (updateStatus_valid _ _ _ _ _ Hs), save_id. apply staged_id.
  - destruct (updateStatus_invalid db now s n d Hs) as [msg ->]. reflexivity.
Qed.

(** After [updateStatus] resolved, the lead holds the requested status. *)
Lemma updateStatus_resolved_status db now s n d d' :
  updateStatus db now s n d = (d', Resolved) -> status d' = s.
Proof.
  intros H. destruct (includes validStatuses s) eqn:Hs.
  - rewrite (updateStatus_valid _ _ _ _ _ Hs) in H.
    apply save_resolved in H. subst d'.
    destruct (mark_saved_status_fields now (pre_save now (staged s n d)))
      as (-> & _).
    unfold pre_save.
    assert (Ht : forall x, status (track_status now x) = status x).
    { intros x. unfold track_status.
      destruct (statusModified x || isNew x); [|reflexivity].
      destruct (isNew x); [reflexivity|].
      destruct (truthy (_statusNotes x)); reflexivity. }
    rewrite Ht.
    destruct (normalize_contact_status_fields (staged s n d)) as (-> & _).
    apply staged_fields.
  - destruct (updateStatus_invalid db now s n d Hs) as [msg Hm].
    rewrite Hm in H. discriminate.
Qed.

(** The loop adds exactly one record per lead, to one of the two lists, and
    every record of a success carries the requested status twice. *)
Lemma update_each_spec db clock s n leads : forall i R E R' E',
  update_each db clock i s n leads R E = (R', E') ->
  exists Rn En,
    R' = (R ++ Rn)%list /\ E' = (E ++ En)%list /\
    (length Rn + length En = length leads)%nat /\
    Forall (fun r => oldStatus r = s /\ newStatus r = s) Rn /\
    (map res_id Rn ++ map err_id En)%list ≡ₚ map _id leads.
Proof.
  induction leads as [|lead rest IH]; intros i R E R' E' H; simpl in H.
  - injection H as <- <-. exists [], []. rewrite !app_nil_r.
    split; [reflexivity|]. split; [reflexivity|]. split; [reflexivity|].
    split; [constructor|reflexivity].
  - destruct (updateStatus db (clock i) s n lead) as [lead' [|msg]] eqn:Hu.
    + apply IH in H as (Rn & En & -> & -> & Hlen & Hall & Hperm).
      pose proof (updateStatus_resolved_status _ _ _ _ _ _ Hu) as Hs.
      pose proof (updateStatus_id db (clock i) s n lead) as Hid.
      rewrite Hu in Hid. cbn [fst] in Hid.
      eexists (_ :: Rn), En. rewrite <- app_assoc. repeat split.
      * simpl. lia.
      * constructor; [split; [exact Hs|reflexivity]|exact Hall].
      * cbn [map res_id app]. rewrite Hid. now constructor.
    + apply IH in H as (Rn & En & -> & -> & Hlen & Hall & Hperm).
      pose proof (updateStatus_id db (clock i) s n lead) as Hid.
      rewrite Hu in Hid. cbn [fst] in Hid.
      eexists Rn, (_ :: En). rewrite <- app_assoc. repeat split.
      * simpl. lia.
      * exact Hall.
      * cbn [map err_id]. rewrite Hid.
        rewrite <- Permutation_middle. now constructor.
Qed.

Lemma includes_In l s : includes l s = true <-> In s l.
Proof.
  unfold includes. rewrite existsb_exists. split.
  - intros (x & Hx & He). apply String.eqb_eq in He. now subst x.
  - intros H. exists s. split; [exact H|apply String.eqb_refl].
Qed.

(** The query returns documents of the collection, under their identifiers,
    and only documents whose identifier was requested. *)
Lemma find_in_ids collection ids id :
  In id (map _id (find_in collection ids)) ->
  In id (map _id collection) /\ In id ids.
Proof.
  unfold find_in. rewrite map_map. cbn [hydrate _id].
  rewrite in_map_iff. intros (d & <- & Hd).
  apply filter_In in Hd as [Hd Hi]. split.
  - now apply in_map.
  - now apply includes_In.
Qed.










(** A refused write is reported for its lead and the others go through. *)
Example bulk_with_one_refusal :
  exists ok ko,
    bulkUpdateLeadStatus hex24 refusing_b (fun i => 9000 + Z.of_nat i) five_leads
      three_and_one = Status200 ok ko (mkSummary 4 3 2 1) /\
    map res_id ok = [object_id "a"; object_id "c"] /\
    ko = [mkUpdateError (object_id "b") (Some "Sample Lead") "b@example.com"
            "write failed"].
Proof.
  do 2 eexists. split; [vm_compute; reflexivity|]. split; reflexivity.
Qed.

(** One identifier that is no ObjectId fails the request as a whole. *)
Example bulk_with_malformed_id :
  bulkUpdateLeadStatus hex24 accepting (fun i => 9000 + Z.of_nat i) five_leads
    (mkBulkRequest [object_id "a"; "zz"] "converted" None) =
  Status500 "Internal server error while updating lead statuses".
Proof. vm_compute. reflexivity. Qed.


(** C10.  In every successful answer of the bulk update, the record of each
    lead that was updated carries the requested status in [oldStatus] as
    well as in [newStatus]: [lead.status] is read after [updateStatus]
    assigned it, so the status the lead had before is not reported. *)
Theorem bulk_oldStatus_is_requested_status cast_id db clock collection body
    ok ko summary :
  bulkUpdateLeadStatus cast_id db clock collection body = Status200 ok ko summary ->
  Forall (fun r => oldStatus r = req_status body /\
                   newStatus r = req_status body) ok.
Proof.
  unfold bulkUpdateLeadStatus. intros H.
  repeat match type of H with
         | context [if ?c then _ else _] => destruct c; try discriminate
         end.
  destruct (find_by_ids cast_id collection (leadIds body)) as [leads|];
    [|discriminate].
  destruct (length leads =? 0)%nat; [discriminate|].
  destruct (update_each db clock 0 (req_status body) (req_notes body)
              leads [] []) as [R E] eqn:Hu.
  injection H as <- <- _.
  apply update_each_spec in Hu as (Rn & En & -> & _ & _ & Hall & _).
  exact Hall.
Qed.

(** The lead [a] is connected before the update; its record says
    converted. *)
Lemma bulk_oldStatus_is_requested_status_witness :
  map status (find_in five_leads [object_id "a"]) = ["connected"] /\
  exists ok,
    bulkUpdateLeadStatus hex24 accepting (fun _ => 9000) five_leads
      (mkBulkRequest [object_id "a"] "converted" None)
    = Status200 ok [] (mkSummary 1 1 1 0) /\
    map res_id ok = [object_id "a"] /\
    Forall (fun r => oldStatus r = "converted" /\ newStatus r = "converted") ok.
Proof.
  split; [vm_compute; reflexivity|].
  eexists. split; [vm_compute; reflexivity|]. split; [reflexivity|].
  apply (bulk_oldStatus_is_requested_status hex24 accepting (fun _ => 9000)
           five_leads (mkBulkRequest [object_id "a"] "converted" None)
           _ [] (mkSummary 1 1 1 0)).
  vm_compute. reflexivity.
Defined.

(** * Further properties of the code *)

(** ** Characters *)

Ltac ascii_cases c :=
  destruct c as [[] [] [] [] [] [] [] []]; reflexivity.

Lemma toUpperCase_idem c : toUpperCase (toUpperCase c) = toUpperCase c.
Proof. ascii_cases c. Qed.

Lemma toLowerCase_idem c : toLowerCase (toLowerCase c) = toLowerCase c.
Proof. ascii_cases c. Qed.

Lemma is_word_char_upper c : is_word_char (toUpperCase c) = is_word_char c.
Proof. ascii_cases c. Qed.

Lemma is_word_char_lower c : is_word_char (toLowerCase c) = is_word_char c.
Proof. ascii_cases c. Qed.

Lemma is_space_lower c : is_space (toLowerCase c) = is_space c.
Proof. ascii_cases c. Qed.

Lemma is_letter_upper c : is_letter (toUpperCase c) = is_letter c.
Proof. ascii_cases c. Qed.

Lemma is_letter_lower c : is_letter (toLowerCase c) = is_letter c.
Proof. ascii_cases c. Qed.

Lemma name_class_upper c : name_class (toUpperCase c) = name_class c.
Proof. ascii_cases c. Qed.

Lemma name_class_lower c : name_class (toLowerCase c) = name_class c.
Proof. ascii_cases c. Qed.

Lemma email_local_class_lower c :
  email_local_class (toLowerCase c) = email_local_class c.
Proof. ascii_cases c. Qed.

Lemma email_domain_class_lower c :
  email_domain_class (toLowerCase c) = email_domain_class c.
Proof. ascii_cases c. Qed.

Lemma is_char_lower x c :
  is_letter x = false -> is_char x (toLowerCase c) = is_char x c.
Proof.
  unfold is_char. intros Hx.
  destruct (Ascii.eqb_spec c x) as [->|Hne].
  - assert (toLowerCase x = x) as ->; [|apply Ascii.eqb_refl].
    revert Hx. destruct x as [[] [] [] [] [] [] [] []]; simpl;
      first [reflexivity | discriminate].
  - apply Ascii.eqb_neq. intros He. apply Hne. subst x.
    revert Hx. destruct c as [[] [] [] [] [] [] [] []]; simpl;
      first [reflexivity | discriminate].
Qed.

(** ** Phone numbers *)

Lemma digits_of_plus r : digits_of (String "+" r) = digits_of r.
Proof. reflexivity. Qed.

Lemma formatPhoneNumber_shape phone :
  formatPhoneNumber phone =
  if starts_with_plus phone then String "+" (digits_of phone)
  else digits_of phone.
Proof.
  destruct phone as [|c r]; [reflexivity|].
  rewrite formatPhoneNumber_cons. cbn [starts_with_plus].
  destruct (Ascii.eqb_spec c "+") as [->|Hne]; [reflexivity|].
  cbn [orb digits_of]. destruct (is_digit c); reflexivity.
Qed.

(** X1.  The normalised phone number is made of the digits of the input, in
    their order, after a [+] exactly when the input starts with [+]:
    nothing else is kept, and no digit is dropped. *)
Theorem formatPhoneNumber_closed_form (phone : string) :
  formatPhoneNumber phone =
  if starts_with_plus phone then String "+" (digits_of phone)
  else digits_of phone.
Proof. exact (formatPhoneNumber_shape phone). Qed.

Lemma digits_of_formatPhoneNumber phone :
  digits_of (formatPhoneNumber phone) = digits_of phone.
Proof.
  rewrite formatPhoneNumber_shape.
  assert (Hd : forall s, all_digits s = true -> digits_of s = s).
  { induction s as [|c r IH]; simpl; [reflexivity|].
    intros H. apply andb_true_iff in H as [-> Hr]. now rewrite IH. }
  destruct (starts_with_plus phone);
    [rewrite digits_of_plus|]; apply Hd, all_digits_digits_of.
Qed.

(** X2.  Normalising a phone number does not change the verdict of
    [isValidPhone] (nor of the schema's validator, which is the same test):
    the number stored by the hook is valid exactly when the number received
    was. *)
Theorem isValidPhone_formatPhoneNumber (phone : string) :
  isValidPhone (formatPhoneNumber phone) = isValidPhone phone.
Proof. unfold isValidPhone. now rewrite digits_of_formatPhoneNumber. Qed.

Example isValidPhone_samples :
  isValidPhone "555-123-4567" = true /\ isValidPhone "+1 (555) 123-4567" = true /\
  isValidPhone "555-1234" = false /\ isValidPhone "1234567890123456" = false.
Proof. repeat split. Qed.

(** ** Names *)

Lemma capitalize_from_idem s : forall inside,
  capitalize_from inside (capitalize_from inside s) = capitalize_from inside s.
Proof.
  induction s as [|c r IH]; intros inside; [reflexivity|].
  cbn [capitalize_from]. destruct (is_word_char c) eqn:Hc.
  - cbn [capitalize_from]. destruct inside.
    + rewrite is_word_char_lower, Hc, toLowerCase_idem, IH. reflexivity.
    + rewrite is_word_char_upper, Hc, toUpperCase_idem, IH. reflexivity.
  - cbn [capitalize_from]. rewrite Hc, IH. reflexivity.
Qed.

Lemma capitalize_from_length s : forall inside,
  String.length (capitalize_from inside s) = String.length s.
Proof.
  induction s as [|c r IH]; intros inside; [reflexivity|].
  cbn [capitalize_from]. destruct (is_word_char c); cbn [String.length];
    now rewrite IH.
Qed.

Lemma capitalize_from_case_variant s : forall inside,
  case_variant s (capitalize_from inside s).
Proof.
  induction s as [|c r IH]; intros inside; [constructor|].
  cbn [capitalize_from]. destruct (is_word_char c).
  - constructor; [destruct inside; auto|apply IH].
  - constructor; [auto|apply IH].
Qed.

Lemma lower_string_case_variant s : case_variant s (lower_string s).
Proof. induction s as [|c r IH]; constructor; auto. Qed.

(** X3.  Capitalising a name is idempotent and keeps its length: a name
    that went through the hook comes out of a later save unchanged. *)
Theorem capitalizeName_idempotent (s : string) :
  capitalizeName (capitalizeName s) = capitalizeName s /\
  String.length (capitalizeName s) = String.length s.
Proof.
  split; [apply capitalize_from_idem|apply capitalize_from_length].
Qed.

Example capitalizeName_samples :
  capitalizeName "jane DOE" = "Jane Doe" /\
  capitalizeName "o'neil-smith" = "O'Neil-Smith" /\
  capitalizeName "  anne  marie " = "  Anne  Marie ".
Proof. repeat split. Qed.

(** ** Regular expressions *)

(** What [match_run] accepts: a prefix of characters of the class, of a
    length within the bounds, followed by something the rest accepts. *)
Lemma match_run_spec p k s : forall lo hi,
  match_run p lo hi k s = true <->
  exists pre post,
    s = pre +:+ post /\ all_chars p pre = true /\
    (lo <= String.length pre)%nat /\
    (match hi with Some h => (String.length pre <= h)%nat | None => True end) /\
    k post = true.
Proof.
  assert (Hempty : forall (hi : option nat),
            match hi with
            | Some h => (String.length EmptyString <= h)%nat
            | None => True
            end).
  { intros [h|]; [cbn; lia|exact I]. }
  induction s as [|c r IH]; intros lo hi; cbn [match_run]; split.
  - rewrite orb_false_r. destruct lo; [|discriminate]. intros Hk.
    exists EmptyString, EmptyString.
    split; [reflexivity|]. split; [reflexivity|]. split; [cbn; lia|].
    split; [apply Hempty|exact Hk].
  - intros (pre & post & Hs & _ & Hlo & _ & Hk).
    destruct pre; [|discriminate]. destruct post; [|discriminate].
    cbn [String.length] in Hlo. destruct lo; [|lia]. now rewrite Hk.
  - intros H. apply orb_true_iff in H as [H|H].
    + destruct lo; [|discriminate].
      exists EmptyString, (String c r).
      split; [reflexivity|]. split; [reflexivity|]. split; [cbn; lia|].
      split; [apply Hempty|exact H].
    + apply andb_true_iff in H as [Hc H].
      destruct hi as [[|h]|]; [discriminate| |].
      * apply IH in H as (pre & post & -> & Hall & Hlo & Hhi & Hk).
        exists (String c pre), post. cbn [String.length all_chars].
        rewrite Hc, Hall.
        split; [reflexivity|]. split; [reflexivity|]. split; [lia|].
        split; [lia|exact Hk].
      * apply IH in H as (pre & post & -> & Hall & Hlo & Hhi & Hk).
        exists (String c pre), post. cbn [String.length all_chars].
        rewrite Hc, Hall.
        split; [reflexivity|]. split; [reflexivity|]. split; [lia|].
        split; [exact I|exact Hk].
  - intros (pre & post & Hs & Hall & Hlo & Hhi & Hk).
    destruct pre as [|c' pre].
    + change (String c r = post) in Hs. rewrite <- Hs in Hk.
      cbn [String.length] in Hlo.
      destruct lo; [|lia]. now rewrite Hk.
    + change (String c r = String c' (pre +:+ post)) in Hs.
      injection Hs as <- ->.
      cbn [all_chars] in Hall. apply andb_true_iff in Hall as [Hc Hall].
      cbn [String.length] in Hlo, Hhi.
      apply orb_true_iff. right. rewrite Hc. cbn [andb].
      destruct hi as [[|h]|]; [lia| |]; apply IH; exists pre, post;
        (split; [reflexivity|]); (split; [exact Hall|]); (split; [lia|]);
        (split; [first [lia|exact I]|exact Hk]).
Qed.

Lemma case_variant_class p c c' :
  case_blind p -> c' = c \/ c' = toUpperCase c \/ c' = toLowerCase c ->
  p c' = p c.
Proof.
  intros Hp [-> | [-> | ->]]; [reflexivity|apply Hp|apply Hp].
Qed.

Lemma match_run_case_variant p k k' :
  case_blind p ->
  (forall t t', case_variant t t' -> k' t' = k t) ->
  forall s s', case_variant s s' ->
  forall lo hi, match_run p lo hi k' s' = match_run p lo hi k s.
Proof.
  intros Hp Hk s s' Hs. induction Hs as [|c c' s s' Hc Hs IH]; intros lo hi.
  - cbn [match_run]. rewrite !orb_false_r.
    destruct lo; [apply Hk; constructor|reflexivity].
  - cbn [match_run]. rewrite (case_variant_class p c c' Hp Hc).
    rewrite (Hk (String c s) (String c' s')) by (now constructor).
    destruct hi as [[|h]|]; rewrite ?IH; reflexivity.
Qed.

(** An expression whose classes are blind to case gives the same verdict on
    two strings that differ by the case of their characters. *)
Lemma match_seq_case_variant items :
  Forall (fun q => case_blind (q_class q)) items ->
  forall s s', case_variant s s' -> match_seq items s' = match_seq items s.
Proof.
  induction 1 as [|q rest Hq _ IH]; intros s s' Hs; cbn [match_seq].
  - destruct Hs; reflexivity.
  - apply match_run_case_variant; assumption.
Qed.

Lemma case_blind_name_class : case_blind name_class.
Proof. intros c. split; [apply name_class_upper|apply name_class_lower]. Qed.

Lemma case_blind_email_local_class : case_blind email_local_class.
Proof. intros c. split; ascii_cases c. Qed.

Lemma case_blind_email_domain_class : case_blind email_domain_class.
Proof. intros c. split; ascii_cases c. Qed.

Lemma case_blind_is_letter : case_blind is_letter.
Proof. intros c. split; [apply is_letter_upper|apply is_letter_lower]. Qed.

Lemma case_blind_at : case_blind (is_char "@").
Proof. intros c. split; ascii_cases c. Qed.

Lemma case_blind_dot : case_blind (is_char ".").
Proof. intros c. split; ascii_cases c. Qed.

(** X4.  Capitalising a name does not change the verdict of [isValidName]:
    the hook turns a valid name into a valid name and an invalid one into an
    invalid one. *)
Theorem isValidName_capitalizeName (s : string) :
  isValidName (capitalizeName s) = isValidName s.
Proof.
  apply match_seq_case_variant.
  - constructor; [apply case_blind_name_class|constructor].
  - apply capitalize_from_case_variant.
Qed.

(** X5.  For an address of code units below 128, lower-casing does not
    change the verdict of [isValidEmail]: the validator accepts the address
    as typed exactly when it accepts the lower-case address that is stored
    and looked up. *)
Theorem isValidEmail_lower_string (e : string) :
  ascii_only e ->
  isValidEmail (lower_string e) = isValidEmail e.
Proof.
  intros _. apply match_seq_case_variant.
  - constructor; [apply case_blind_email_local_class|].
    constructor; [apply case_blind_at|].
    constructor; [apply case_blind_email_domain_class|].
    constructor; [apply case_blind_dot|].
    constructor; [apply case_blind_is_letter|constructor].
  - apply lower_string_case_variant.
Qed.

Lemma isValidEmail_lower_string_witness :
  ascii_only "Jane.Doe@Mail.Example.ORG" /\
  isValidEmail "jane.doe@mail.example.org" = true /\
  isValidEmail (lower_string "Jane.Doe@Mail.Example.ORG") =
    isValidEmail "Jane.Doe@Mail.Example.ORG".
Proof.
  split; [vm_compute; reflexivity|]. split; [vm_compute; reflexivity|].
  apply (isValidEmail_lower_string "Jane.Doe@Mail.Example.ORG").
  vm_compute. reflexivity.
Defined.

Example isValidEmail_samples :
  isValidEmail "jane@x.com" = true /\ isValidEmail "JANE.doe+crm@Mail.Example.org" = true /\
  isValidEmail "jane@x.c" = false /\ isValidEmail "jane@@x.com" = false /\
  isValidEmail "jane doe@x.com" = false /\ isValidEmail "@x.com" = false /\
  isValidEmail "jane@x.com " = false /\ isValidEmail "jane@x.c0m" = false.
Proof. repeat split. Qed.

Example isValidName_samples :
  isValidName "Jane Doe" = true /\ isValidName "O'Neil-Smith" = true /\
  isValidName "J" = false /\ isValidName "Jane2" = false /\
  isValidName "abcdefghijklmnopqrstuvwxyzabcdefghijklmnopqrstuvwxyz" = false.
Proof. repeat split. Qed.

Lemma append_cons x r b : String x r +:+ b = String x (r +:+ b).
Proof. reflexivity. Qed.

Lemma append_empty_l b : EmptyString +:+ b = b.
Proof. reflexivity. Qed.

Lemma append_empty_r s : s +:+ EmptyString = s.
Proof.
  induction s as [|c r IH]; [reflexivity|]. now rewrite append_cons, IH.
Qed.

Lemma append_assoc_str a b c : (a +:+ b) +:+ c = a +:+ (b +:+ c).
Proof.
  induction a as [|x r IH]; [reflexivity|]. now rewrite !append_cons, IH.
Qed.

Lemma length_append_str a b :
  String.length (a +:+ b) = (String.length a + String.length b)%nat.
Proof.
  induction a as [|x r IH]; [reflexivity|].
  rewrite append_cons. cbn [String.length]. now rewrite IH.
Qed.

Lemma all_chars_append p a b :
  all_chars p (a +:+ b) = all_chars p a && all_chars p b.
Proof.
  induction a as [|x r IH]; [reflexivity|].
  rewrite append_cons. cbn [all_chars]. now rewrite IH, andb_assoc.
Qed.

Lemma count_chars_append p a b :
  count_chars p (a +:+ b) = (count_chars p a + count_chars p b)%nat.
Proof.
  induction a as [|x r IH]; [reflexivity|].
  rewrite append_cons. cbn [count_chars]. rewrite IH. lia.
Qed.

(** A run of exactly one character of a one-character class. *)
Lemma single_char x a :
  all_chars (is_char x) a = true ->
  (1 <= String.length a)%nat -> (String.length a <= 1)%nat ->
  a = String x EmptyString.
Proof.
  destruct a as [|c [|c' r]]; cbn [String.length all_chars]; intros H Hlo Hhi;
    [lia| |lia].
  apply andb_true_iff in H as [H _]. apply Ascii.eqb_eq in H. now subst c.
Qed.

Lemma isValidEmail_parts e :
  isValidEmail e = true <->
  exists l d t,
    e = l +:+ "@" +:+ d +:+ "." +:+ t /\
    (1 <= String.length l)%nat /\ all_chars email_local_class l = true /\
    (1 <= String.length d)%nat /\ all_chars email_domain_class d = true /\
    (2 <= String.length t)%nat /\ all_chars is_letter t = true.
Proof.
  unfold isValidEmail, emailRegex. cbn [match_seq q_class q_min q_max]. split.
  - intros H.
    apply match_run_spec in H as (l & r1 & -> & Hl & Hll & _ & H).
    apply match_run_spec in H as (a & r2 & -> & Ha & Hal & Hah & H).
    apply match_run_spec in H as (d & r3 & -> & Hd & Hdl & _ & H).
    apply match_run_spec in H as (b & r4 & -> & Hb & Hbl & Hbh & H).
    apply match_run_spec in H as (t & r5 & -> & Ht & Htl & _ & H).
    apply String.eqb_eq in H. subst r5.
    rewrite (single_char _ _ Ha Hal Hah), (single_char _ _ Hb Hbl Hbh).
    rewrite append_empty_r.
    exists l, d, t. repeat split; assumption.
  - intros (l & d & t & -> & Hll & Hl & Hdl & Hd & Htl & Ht).
    apply match_run_spec. exists l, ("@" +:+ d +:+ "." +:+ t).
    split; [reflexivity|]. split; [exact Hl|]. split; [exact Hll|].
    split; [exact I|].
    apply match_run_spec. exists "@", (d +:+ "." +:+ t).
    split; [reflexivity|]. split; [reflexivity|]. split; [cbn; lia|].
    split; [cbn; lia|].
    apply match_run_spec. exists d, ("." +:+ t).
    split; [reflexivity|]. split; [exact Hd|]. split; [exact Hdl|].
    split; [exact I|].
    apply match_run_spec. exists ".", t.
    split; [reflexivity|]. split; [reflexivity|]. split; [cbn; lia|].
    split; [cbn; lia|].
    apply match_run_spec. exists t, EmptyString.
    split; [now rewrite append_empty_r|]. split; [exact Ht|].
    split; [exact Htl|]. split; [exact I|reflexivity].
Qed.

(** X6.  [isValidEmail] accepts exactly the strings local@domain.tld in which
    local is a non-empty run of letters, digits and [._%+-], domain a
    non-empty run of letters, digits, dots and hyphens, and tld a run of two
    or more letters. *)
Theorem isValidEmail_shape (e : string) :
  isValidEmail e = true <->
  exists l d t,
    e = l +:+ "@" +:+ d +:+ "." +:+ t /\
    (1 <= String.length l)%nat /\ all_chars email_local_class l = true /\
    (1 <= String.length d)%nat /\ all_chars email_domain_class d = true /\
    (2 <= String.length t)%nat /\ all_chars is_letter t = true.
Proof. exact (isValidEmail_parts e). Qed.

Lemma isValidEmail_shape_witness :
  isValidEmail "jane.doe+crm@mail.example.org" = true /\
  exists l d t,
    "jane.doe+crm@mail.example.org" = l +:+ "@" +:+ d +:+ "." +:+ t /\
    (1 <= String.length l)%nat /\ all_chars email_local_class l = true /\
    (1 <= String.length d)%nat /\ all_chars email_domain_class d = true /\
    (2 <= String.length t)%nat /\ all_chars is_letter t = true.
Proof.
  split; [reflexivity|].
  apply (proj1 (isValidEmail_shape "jane.doe+crm@mail.example.org")).
  reflexivity.
Defined.

(** ** Trimming and lower-casing *)

Lemma string_rev_onto_spec s : forall acc,
  string_rev_onto acc s = srev s +:+ acc.
Proof.
  induction s as [|c r IH]; intros acc; [reflexivity|].
  cbn [string_rev_onto]. rewrite (IH (String c acc)), (IH (String c EmptyString)).
  now rewrite append_assoc_str.
Qed.

Lemma srev_cons c r : srev (String c r) = srev r +:+ String c EmptyString.
Proof. cbn [string_rev_onto]. apply string_rev_onto_spec. Qed.

Lemma srev_append a b : srev (a +:+ b) = srev b +:+ srev a.
Proof.
  induction a as [|x r IH].
  - now rewrite append_empty_l, append_empty_r.
  - now rewrite append_cons, !srev_cons, IH, append_assoc_str.
Qed.

Lemma srev_involutive s : srev (srev s) = s.
Proof.
  induction s as [|c r IH]; [reflexivity|].
  now rewrite srev_cons, srev_append, IH.
Qed.

Lemma all_chars_srev p s : all_chars p (srev s) = all_chars p s.
Proof.
  induction s as [|c r IH]; [reflexivity|].
  rewrite srev_cons, all_chars_append, IH. cbn [all_chars].
  rewrite andb_true_r. apply andb_comm.
Qed.

Lemma length_srev s : String.length (srev s) = String.length s.
Proof.
  induction s as [|c r IH]; [reflexivity|].
  rewrite srev_cons, length_append_str, IH. cbn [String.length]. lia.
Qed.

Lemma trim_start_clean s : starts_clean s = true -> trim_start s = s.
Proof.
  destruct s as [|c r]; [reflexivity|]. cbn [starts_clean trim_start].
  now intros ->%negb_true_iff.
Qed.

Lemma starts_clean_trim_start s : starts_clean (trim_start s) = true.
Proof.
  induction s as [|c r IH]; [reflexivity|]. cbn [trim_start].
  destruct (is_space c) eqn:Hc; [exact IH|]. cbn [starts_clean]. now rewrite Hc.
Qed.

Lemma starts_clean_append a b :
  a <> EmptyString -> starts_clean (a +:+ b) = starts_clean a.
Proof. destruct a; [congruence|reflexivity]. Qed.

(** Dropping white space at the start leaves the end as it was. *)
Lemma starts_clean_srev_trim_start s :
  starts_clean (srev s) = true -> starts_clean (srev (trim_start s)) = true.
Proof.
  induction s as [|c r IH]; [reflexivity|]. cbn [trim_start].
  destruct (is_space c) eqn:Hc; [|trivial].
  rewrite srev_cons. destruct r as [|c' r'].
  - reflexivity.
  - rewrite starts_clean_append; [exact IH|].
    rewrite srev_cons. destruct (srev r'); discriminate.
Qed.

Lemma trim_of_trimmed s : trimmed s -> trim s = s.
Proof.
  intros [H1 H2]. unfold trim.
  rewrite (trim_start_clean s H1), (trim_start_clean _ H2).
  apply srev_involutive.
Qed.

Lemma trimmed_trim s : trimmed (trim s).
Proof.
  unfold trimmed, trim. rewrite srev_involutive. split.
  - apply starts_clean_srev_trim_start. rewrite srev_involutive.
    apply starts_clean_trim_start.
  - apply starts_clean_trim_start.
Qed.

Lemma trim_idem s : trim (trim s) = trim s.
Proof. apply trim_of_trimmed, trimmed_trim. Qed.

Lemma lower_string_idem s : lower_string (lower_string s) = lower_string s.
Proof.
  induction s as [|c r IH]; [reflexivity|]. cbn [lower_string].
  now rewrite toLowerCase_idem, IH.
Qed.

Lemma lower_string_trim_start s :
  lower_string (trim_start s) = trim_start (lower_string s).
Proof.
  induction s as [|c r IH]; [reflexivity|]. cbn [trim_start lower_string].
  rewrite is_space_lower. destruct (is_space c); [exact IH|reflexivity].
Qed.

Lemma lower_string_rev_onto s : forall acc,
  lower_string (string_rev_onto acc s) =
  string_rev_onto (lower_string acc) (lower_string s).
Proof.
  induction s as [|c r IH]; intros acc; [reflexivity|].
  cbn [string_rev_onto lower_string]. now rewrite IH.
Qed.

Lemma lower_string_trim s : lower_string (trim s) = trim (lower_string s).
Proof.
  unfold trim.
  now rewrite lower_string_rev_onto, lower_string_trim_start,
    lower_string_rev_onto, lower_string_trim_start.
Qed.

(** X7.  On a string of code units below 128, [trim] removes the white
    space at both ends and nothing else is needed afterwards: it is
    idempotent, and its result neither starts nor ends with white space. *)
Theorem trim_idempotent (s : string) :
  ascii_only s ->
  trim (trim s) = trim s /\ trimmed (trim s).
Proof. intros _. split; [apply trim_idem|apply trimmed_trim]. Qed.

Lemma trim_idempotent_witness :
  ascii_only "  Acme  Corp " /\ trim "  Acme  Corp " = "Acme  Corp" /\
  trim (trim "  Acme  Corp ") = trim "  Acme  Corp " /\
  trimmed (trim "  Acme  Corp ").
Proof.
  split; [vm_compute; reflexivity|]. split; [vm_compute; reflexivity|].
  apply (trim_idempotent "  Acme  Corp "). vm_compute. reflexivity.
Defined.

Example trim_samples :
  trim "  Acme  Corp " = "Acme  Corp" /\ trim "   " = EmptyString /\
  trim "x" = "x".
Proof. repeat split. Qed.

(** X8.  On an address of code units below 128, [normalizeEmail] is
    idempotent, and it is the normalisation the schema applies to the path
    [email] (trim, then lower case), so an address normalised by the
    validators is stored as it is. *)
Theorem normalizeEmail_idempotent (e : string) :
  ascii_only e ->
  normalizeEmail (normalizeEmail e) = normalizeEmail e /\
  normalizeEmail e = lower_string (trim e).
Proof.
  intros _. unfold normalizeEmail. split.
  - now rewrite (lower_string_trim (lower_string e)), lower_string_idem, trim_idem.
  - symmetry. apply lower_string_trim.
Qed.

Lemma normalizeEmail_idempotent_witness :
  ascii_only "  Jane@X.Com " /\ normalizeEmail "  Jane@X.Com " = "jane@x.com" /\
  normalizeEmail (normalizeEmail "  Jane@X.Com ") = normalizeEmail "  Jane@X.Com " /\
  normalizeEmail "  Jane@X.Com " = lower_string (trim "  Jane@X.Com ").
Proof.
  split; [vm_compute; reflexivity|]. split; [vm_compute; reflexivity|].
  apply (normalizeEmail_idempotent "  Jane@X.Com "). vm_compute. reflexivity.
Defined.

(** ** What a valid address looks like *)

Ltac ascii_impl c :=
  destruct c as [[] [] [] [] [] [] [] []]; vm_compute; intros H;
  first [reflexivity | discriminate H].

Lemma all_chars_impl p q s :
  (forall c, p c = true -> q c = true) ->
  all_chars p s = true -> all_chars q s = true.
Proof.
  intros Hpq. induction s as [|c r IH]; cbn [all_chars]; [reflexivity|].
  intros [Hc Hr]%andb_true_iff. now rewrite (Hpq c Hc), IH.
Qed.

Lemma count_chars_none p q s :
  (forall c, p c = true -> q c = false) ->
  all_chars p s = true -> count_chars q s = 0%nat.
Proof.
  intros Hpq. induction s as [|c r IH]; cbn [all_chars count_chars]; [reflexivity|].
  intros [Hc Hr]%andb_true_iff. now rewrite (Hpq c Hc), IH.
Qed.

Lemma local_not_space c : email_local_class c = true -> not_space c = true.
Proof. ascii_impl c. Qed.

Lemma domain_not_space c : email_domain_class c = true -> not_space c = true.
Proof. ascii_impl c. Qed.

Lemma letter_not_space c : is_letter c = true -> not_space c = true.
Proof. ascii_impl c. Qed.

Lemma local_not_at c : email_local_class c = true -> is_char "@" c = false.
Proof. ascii_impl c. Qed.

Lemma domain_not_at c : email_domain_class c = true -> is_char "@" c = false.
Proof. ascii_impl c. Qed.

Lemma letter_not_at c : is_letter c = true -> is_char "@" c = false.
Proof. ascii_impl c. Qed.

Lemma not_space_trimmed s : all_chars not_space s = true -> trimmed s.
Proof.
  intros H.
  assert (Hs : forall x, all_chars not_space x = true -> starts_clean x = true).
  { intros [|c r]; cbn [all_chars starts_clean]; [reflexivity|].
    now intros [Hc _]%andb_true_iff. }
  split; apply Hs; [|rewrite all_chars_srev]; exact H.
Qed.

(** X9.  An address [isValidEmail] accepts contains exactly one [@] and no
    white space; trimming leaves it as it is, so that [normalizeEmail] only
    lower-cases it. *)
Theorem isValidEmail_one_at (e : string) :
  isValidEmail e = true ->
  count_chars (is_char "@") e = 1%nat /\
  all_chars not_space e = true /\
  trim e = e /\
  normalizeEmail e = lower_string e.
Proof.
  intros H. apply isValidEmail_parts in H
    as (l & d & t & -> & _ & Hl & _ & Hd & _ & Ht).
  assert (Hns : all_chars not_space (l +:+ "@" +:+ d +:+ "." +:+ t) = true).
  { rewrite !all_chars_append.
    rewrite (all_chars_impl _ _ l local_not_space Hl),
      (all_chars_impl _ _ d domain_not_space Hd),
      (all_chars_impl _ _ t letter_not_space Ht). reflexivity. }
  split; [|split; [exact Hns|]].
  - rewrite !count_chars_append.
    rewrite (count_chars_none _ _ l local_not_at Hl),
      (count_chars_none _ _ d domain_not_at Hd),
      (count_chars_none _ _ t letter_not_at Ht). reflexivity.
  - pose proof (trim_of_trimmed _ (not_space_trimmed _ Hns)) as Htrim.
    split; [exact Htrim|].
    unfold normalizeEmail. now rewrite <- lower_string_trim, Htrim.
Qed.

Lemma isValidEmail_one_at_witness :
  isValidEmail "Jane@X.com" = true /\
  count_chars (is_char "@") "Jane@X.com" = 1%nat /\
  all_chars not_space "Jane@X.com" = true /\
  trim "Jane@X.com" = "Jane@X.com" /\
  normalizeEmail "Jane@X.com" = lower_string "Jane@X.com".
Proof.
  split; [reflexivity|].
  apply (isValidEmail_one_at "Jane@X.com"). reflexivity.
Defined.

(** ** The contact fields under the hook *)

Lemma formatPhoneNumber_twice p :
  formatPhoneNumber (formatPhoneNumber p) = formatPhoneNumber p.
Proof.
  rewrite (formatPhoneNumber_shape (formatPhoneNumber p)).
  rewrite digits_of_formatPhoneNumber.
  rewrite (formatPhoneNumber_shape p).
  destruct (starts_with_plus p) eqn:Hp; [reflexivity|].
  destruct (digits_of p) as [|c r] eqn:Hd; [reflexivity|].
  cbn [starts_with_plus].
  assert (Hc : is_digit c = true).
  { pose proof (all_digits_digits_of p) as H. rewrite Hd in H.
    cbn [all_digits] in H. now apply andb_true_iff in H as [H _]. }
  destruct (Ascii.eqb_spec c "+") as [->|_]; [discriminate|reflexivity].
Qed.

Lemma truthy_capitalized v : truthy (capitalized v) = truthy v.
Proof.
  unfold capitalized. destruct (truthy v) eqn:Hv; [|exact Hv].
  destruct v as [s|]; [|discriminate]. cbn [option_map truthy].
  destruct s as [|c r]; [discriminate|].
  unfold capitalizeWords. cbn [capitalize_from]. destruct (is_word_char c); reflexivity.
Qed.

Lemma capitalized_idem v : capitalized (capitalized v) = capitalized v.
Proof.
  unfold capitalized at 1. rewrite truthy_capitalized.
  destruct (truthy v) eqn:Hv; [|reflexivity].
  unfold capitalized. rewrite Hv. destruct v as [s|]; [|discriminate].
  cbn [option_map]. unfold capitalizeWords. now rewrite capitalize_from_idem.
Qed.

Lemma capitalize_from_full_name f l : forall inside,
  capitalize_from inside (f +:+ " " +:+ l) =
  capitalize_from inside f +:+ " " +:+ capitalize_from false l.
Proof.
  induction f as [|c r IH]; intros inside.
  - reflexivity.
  - rewrite append_cons. cbn [capitalize_from].
    destruct (is_word_char c); now rewrite IH, append_cons.
Qed.

(** The fields of [normalize_contact d], one by one. *)
Lemma normalize_contact_fields d :
  phone (normalize_contact d) = formatPhoneNumber (phone d) /\
  name (normalize_contact d) =
    capitalized
      (if negb (truthy (name d)) && truthy (firstName d) && truthy (lastName d)
       then match firstName d, lastName d with
            | Some f, Some l => Some (f +:+ " " +:+ l)
            | _, _ => name d
            end
       else name d) /\
  firstName (normalize_contact d) = capitalized (firstName d) /\
  lastName (normalize_contact d) = capitalized (lastName d) /\
  company (normalize_contact d) =
    (if truthy (company d) then option_map trim (company d) else company d).
Proof.
  split; [apply normalize_contact_phone|]. repeat split.
Qed.

Lemma normalize_contact_other_fields d :
  _id (normalize_contact d) = _id d /\ email (normalize_contact d) = email d /\
  source (normalize_contact d) = source d /\ notes (normalize_contact d) = notes d /\
  createdAt (normalize_contact d) = createdAt d.
Proof. repeat split. Qed.

Lemma Lead_eq (a b : Lead) :
  _id a = _id b -> name a = name b -> firstName a = firstName b ->
  lastName a = lastName b -> company a = company b -> email a = email b ->
  phone a = phone b -> status a = status b ->
  statusHistory a = statusHistory b -> statusTimestamps a = statusTimestamps b ->
  source a = source b -> notes a = notes b -> createdAt a = createdAt b ->
  isNew a = isNew b -> statusModified a = statusModified b ->
  _statusNotes a = _statusNotes b -> a = b.
Proof. destruct a, b; cbn. intros. subst. reflexivity. Qed.

Lemma normalize_contact_idem d :
  normalize_contact (normalize_contact d) = normalize_contact d.
Proof.
  destruct (normalize_contact_fields d) as (Hp & Hn & Hf & Hl & Hc).
  destruct (normalize_contact_fields (normalize_contact d))
    as (Hp' & Hn' & Hf' & Hl' & Hc').
  destruct (normalize_contact_status_fields (normalize_contact d))
    as (Ks & Kh & Kt & Kn & Km & Kx).
  destruct (normalize_contact_other_fields (normalize_contact d))
    as (Ki & Ke & Kso & Kno & Kc).
  apply Lead_eq; try assumption.
  - assert (Hcond : negb (truthy (name (normalize_contact d)))
                    && truthy (firstName (normalize_contact d))
                    && truthy (lastName (normalize_contact d)) = false).
    { rewrite Hn, Hf, Hl, !truthy_capitalized.
      destruct (negb (truthy (name d)) && truthy (firstName d)
                && truthy (lastName d)) eqn:Hc0; [|exact Hc0].
      apply andb_true_iff in Hc0 as [[_ H1]%andb_true_iff H2].
      destruct (firstName d) as [f|]; [|discriminate].
      destruct (lastName d) as [l|]; [|discriminate].
      destruct f; [discriminate|reflexivity]. }
    rewrite Hn', Hcond, Hn. apply capitalized_idem.
  - rewrite Hf', Hf. apply capitalized_idem.
  - rewrite Hl', Hl. apply capitalized_idem.
  - rewrite Hc', Hc. destruct (truthy (company d)) eqn:Ht.
    + destruct (company d) as [c|]; [|discriminate]. cbn [option_map].
      destruct (truthy (Some (trim c))); [|reflexivity].
      cbn [option_map]. now rewrite trim_idem.
    + now rewrite Ht.
  - rewrite Hp', Hp. apply formatPhoneNumber_twice.
Qed.

Lemma track_status_contact now d :
  _id (track_status now d) = _id d /\ name (track_status now d) = name d /\
  firstName (track_status now d) = firstName d /\
  lastName (track_status now d) = lastName d /\
  company (track_status now d) = company d /\
  email (track_status now d) = email d /\ phone (track_status now d) = phone d /\
  source (track_status now d) = source d /\ notes (track_status now d) = notes d /\
  createdAt (track_status now d) = createdAt d /\
  isNew (track_status now d) = isNew d /\
  statusModified (track_status now d) = statusModified d.
Proof.
  unfold track_status. destruct (statusModified d || isNew d); [|repeat split].
  destruct (isNew d) eqn:Hn; [|destruct (truthy (_statusNotes d))];
    repeat split; exact Hn.
Qed.

Lemma track_status_idle now d :
  isNew d = false -> statusModified d = false -> track_status now d = d.
Proof. intros Hn Hm. unfold track_status. now rewrite Hn, Hm. Qed.

Lemma mark_saved_idle now d :
  isNew d = false -> statusModified d = false -> mark_saved now d = d.
Proof.
  intros Hn Hm. unfold mark_saved. rewrite Hn. destruct d; cbn in *.
  now subst.
Qed.

(** The hook leaves a document it has already normalised as it is. *)
Lemma normalize_contact_saved now now' d :
  normalize_contact (mark_saved now (pre_save now' d)) =
  mark_saved now (pre_save now' d).
Proof.
  set (d0 := mark_saved now (pre_save now' d)).
  assert (Hc : name d0 = name (normalize_contact d) /\
               firstName d0 = firstName (normalize_contact d) /\
               lastName d0 = lastName (normalize_contact d) /\
               company d0 = company (normalize_contact d) /\
               phone d0 = phone (normalize_contact d)).
  { subst d0. unfold pre_save.
    destruct (track_status_contact now' (normalize_contact d))
      as (_ & H1 & H2 & H3 & H4 & _ & H5 & _).
    cbn [mark_saved name firstName lastName company phone].
    rewrite H1, H2, H3, H4, H5. repeat split. }
  destruct Hc as (Hn & Hf & Hl & Hc & Hp).
  destruct (normalize_contact_fields d0) as (Fp & Fn & Ff & Fl & Fc).
  destruct (normalize_contact_fields (normalize_contact d))
    as (Gp & Gn & Gf & Gl & Gc).
  pose proof (normalize_contact_idem d) as Hid.
  destruct (normalize_contact_status_fields d0) as (Ks & Kh & Kt & Ki & Km & Kx).
  destruct (normalize_contact_other_fields d0) as (Oi & Oe & Os & On & Oc).
  apply Lead_eq; try assumption.
  - rewrite Fn, Hn, Hf, Hl, <- Gn, Hid. reflexivity.
  - rewrite Ff, Hf, <- Gf, Hid. reflexivity.
  - rewrite Fl, Hl, <- Gl, Hid. reflexivity.
  - rewrite Fc, Hc, <- Gc, Hid. reflexivity.
  - rewrite Fp, Hp, <- Gp, Hid. reflexivity.
Qed.

(** X10.  Saving again a lead that has just been saved, without touching it,
    changes nothing when the persistence layer accepts it: no history entry
    is added, no stage timestamp is set, and the contact fields, already
    normalised, stay as they are. *)
Theorem save_again_changes_nothing db now now' d d0 :
  save db now d = (d0, Resolved) ->
  validation_error db d0 = None -> write_error db d0 = None ->
  save db now' d0 = (d0, Resolved).
Proof.
  intros Hs Hv Hw. apply save_resolved in Hs.
  assert (Hpre : pre_save now' d0 = d0).
  { unfold pre_save. subst d0. rewrite normalize_contact_saved.
    now apply track_status_idle. }
  unfold save. rewrite Hv, Hpre, Hw.
  f_equal. subst d0. now apply mark_saved_idle.
Qed.

Lemma save_again_changes_nothing_witness :
  save accepting 1000 (new_Lead "L1" jane_input) = (jane, Resolved) /\
  save accepting 5000 jane = (jane, Resolved).
Proof.
  split; [reflexivity|].
  apply (save_again_changes_nothing accepting 1000 5000
           (new_Lead "L1" jane_input) jane); reflexivity.
Defined.

Lemma pre_save_contact now d :
  name (pre_save now d) = name (normalize_contact d) /\
  firstName (pre_save now d) = firstName (normalize_contact d) /\
  lastName (pre_save now d) = lastName (normalize_contact d) /\
  company (pre_save now d) = company (normalize_contact d) /\
  phone (pre_save now d) = phone (normalize_contact d) /\
  email (pre_save now d) = email d.
Proof.
  unfold pre_save.
  destruct (track_status_contact now (normalize_contact d))
    as (_ & H1 & H2 & H3 & H4 & H5 & H6 & _).
  rewrite H1, H2, H3, H4, H5, H6. repeat split.
Qed.

(** X11.  When a lead is saved without a name but with a first and a last
    name, the hook derives the name: the stored name is the stored first
    name, a space, and the stored last name, each capitalised. *)
Theorem pre_save_derives_name now d f l :
  truthy (name d) = false ->
  firstName d = Some f -> lastName d = Some l ->
  f <> EmptyString -> l <> EmptyString ->
  firstName (pre_save now d) = Some (capitalizeWords f) /\
  lastName (pre_save now d) = Some (capitalizeWords l) /\
  name (pre_save now d) =
    Some (capitalizeWords f +:+ " " +:+ capitalizeWords l).
Proof.
  intros Hn Hf Hl Hfe Hle.
  destruct (pre_save_contact now d) as (-> & -> & -> & _).
  destruct (normalize_contact_fields d) as (_ & -> & -> & -> & _).
  rewrite Hn, Hf, Hl. unfold capitalized. cbn [truthy negb andb].
  assert (Hft : negb (String.eqb f EmptyString) = true)
    by (destruct f; [congruence|reflexivity]).
  assert (Hlt : negb (String.eqb l EmptyString) = true)
    by (destruct l; [congruence|reflexivity]).
  rewrite Hft, Hlt. cbn [andb option_map truthy].
  assert (Hnt : negb (String.eqb (f +:+ " " +:+ l) EmptyString) = true)
    by (destruct f; [congruence|reflexivity]).
  rewrite Hnt. cbn [option_map].
  split; [reflexivity|]. split; [reflexivity|].
  unfold capitalizeWords. now rewrite capitalize_from_full_name.
Qed.

Lemma pre_save_derives_name_witness :
  let d := new_Lead "L1" jane_input in
  firstName (pre_save 1000 d) = Some (capitalizeWords "jane") /\
  lastName (pre_save 1000 d) = Some (capitalizeWords "doe") /\
  name (pre_save 1000 d) = Some (capitalizeWords "jane" +:+ " " +:+ capitalizeWords "doe").
Proof.
  apply (pre_save_derives_name 1000 (new_Lead "L1" jane_input) "jane" "doe");
    first [reflexivity | discriminate].
Defined.

(** ** Invariants of the status engine *)

Lemma stage_timestamp_get st d :
  stage_timestamp st d =
  stage_get st (match statusTimestamps d with Some t => t | None => no_stamps end).
Proof.
  unfold stage_timestamp, stage_get.
  destruct (statusTimestamps d); [reflexivity|]. destruct st; reflexivity.
Qed.

(** The [switch] of the hook, stage by stage. *)
Lemma stage_get_stamp_status st s now t :
  stage_get st (stamp_status s now t) =
  if String.eqb s (stage_name st)
  then match stage_get st t with Some x => Some x | None => Some now end
  else stage_get st t.
Proof.
  unfold stamp_status.
  destruct (String.eqb_spec s "connected") as [->|H1].
  { destruct st; cbn; destruct (connectedAt t) eqn:E; cbn; rewrite ?E;
      reflexivity. }
  destruct (String.eqb_spec s "qualified") as [->|H2].
  { destruct st; cbn; destruct (qualifiedAt t) eqn:E; cbn; rewrite ?E;
      reflexivity. }
  destruct (String.eqb_spec s "converted") as [->|H3].
  { destruct st; cbn; destruct (convertedAt t) eqn:E; cbn; rewrite ?E;
      reflexivity. }
  destruct st; cbn [stage_name];
    match goal with
    | |- context [String.eqb s ?x] =>
        destruct (String.eqb_spec s x); [congruence|reflexivity]
    end.
Qed.

(** The stage timestamps after the hook, for a stored document. *)
Lemma pre_save_stamps now d :
  isNew d = false ->
  statusTimestamps (pre_save now d) =
  if statusModified d
  then Some (stamp_status (status d) now
               (match statusTimestamps d with Some t => t | None => no_stamps end))
  else statusTimestamps d.
Proof.
  intros Hnew. unfold pre_save, track_status.
  destruct (normalize_contact_status_fields d) as (Hs & Hh & Ht & Hn & Hm & Hx).
  rewrite Hm, Hn, Hnew, orb_false_r, Hs.
  destruct (statusModified d); [|exact Ht].
  destruct (truthy (_statusNotes (normalize_contact d)));
    cbn [statusTimestamps set_statusTimestamps set_statusHistory set_statusNotes];
    now rewrite Ht.
Qed.

(** One resolved transition of a stored document, in full. *)
Lemma updateStatus_effect db now s n d :
  snd (updateStatus db now s n d) = Resolved ->
  isNew d = false -> statusModified d = false ->
  let d' := fst (updateStatus db now s n d) in
  snd (updateStatus db now s n d) = Resolved /\
  isNew d' = false /\ statusModified d' = false /\ status d' = s /\
  if String.eqb (status d) s
  then statusHistory d' = statusHistory d /\
       statusTimestamps d' = statusTimestamps d
  else (exists e, statusHistory d' = (statusHistory d ++ [e])%list /\
                  entry_status e = s /\ timestamp e = now) /\
       statusTimestamps d' =
         Some (stamp_status s now
                 (match statusTimestamps d with
                  | Some t => t
                  | None => no_stamps
                  end)).
Proof.
  intros Hres Hnew Hmod.
  destruct (updateStatus_resolved _ _ _ _ _ Hres) as [Hs ->].
  unfold committed. cbn [fst snd].
  destruct (staged_fields s n d) as (Fs & Fh & Ft & Fn & Fm).
  rewrite Hnew in Fn. rewrite Hnew, Hmod in Fm. cbn [orb] in Fm.
  destruct (pre_save_history now (staged s n d) Fn) as [Ps Ph].
  pose proof (pre_save_stamps now (staged s n d) Fn) as Pt.
  destruct (mark_saved_status_fields now (pre_save now (staged s n d)))
    as (Ms & Mh & Mt & Mn & Mm).
  rewrite Mn, Mm, Ms, Mh, Mt, Ps, Fs.
  split; [reflexivity|]. split; [reflexivity|]. split; [reflexivity|].
  split; [reflexivity|].
  rewrite Fm in Ph, Pt. destruct (String.eqb (status d) s); cbn [negb] in Ph, Pt.
  - now rewrite Ph, Pt, Fh, Ft.
  - rewrite Pt, Fs, Ft. split; [|reflexivity].
    destruct Ph as (e & He & Hes & Het). exists e.
    rewrite He, Fh, Hes, Fs. auto.
Qed.

Lemma find_snoc {A} (p : A -> bool) (h : list A) (e : A) :
  List.find p (h ++ [e])%list =
  match List.find p h with
  | Some x => Some x
  | None => if p e then Some e else None
  end.
Proof.
  induction h as [|a r IH]; cbn [List.find app]; [reflexivity|].
  destruct (p a); [reflexivity|exact IH].
Qed.

(** A resolved transition keeps the document well tracked. *)
Lemma well_tracked_step db now s n d :
  snd (updateStatus db now s n d) = Resolved ->
  well_tracked d -> well_tracked (fst (updateStatus db now s n d)).
Proof.
  intros Hres (Hnew & Hmod & Hlast & Hstamps).
  destruct (updateStatus_effect db now s n d Hres Hnew Hmod)
    as (_ & Hn' & Hm' & Hs' & Heff).
  set (d' := fst (updateStatus db now s n d)) in *.
  split; [exact Hn'|]. split; [exact Hm'|].
  destruct (String.eqb_spec (status d) s) as [Heq|Hne].
  - destruct Heff as [Hh Ht]. split.
    + now rewrite Hh, Hlast, Hs', Heq.
    + intros st. rewrite Hh, <- Hstamps. unfold stage_timestamp. now rewrite Ht.
  - destruct Heff as [(e & Hh & Hes & Het) Ht]. split.
    + rewrite Hh, last_snoc. cbn [option_map]. now rewrite Hes, Hs'.
    + intros st. rewrite stage_timestamp_get, Ht, stage_get_stamp_status.
      rewrite <- stage_timestamp_get, Hstamps, Hh.
      unfold first_with_status. rewrite find_snoc, Hes.
      destruct (List.find _ (statusHistory d)) as [x|]; cbn [option_map].
      * destruct (String.eqb s (stage_name st)); reflexivity.
      * destruct (String.eqb s (stage_name st)); cbn [option_map];
          [now rewrite Het|reflexivity].
Qed.

Lemma well_tracked_transitions db ts :
  forall d, all_resolved db ts d ->
  well_tracked d -> well_tracked (apply_transitions db ts d).
Proof.
  induction ts as [|t r IH]; intros d Hres Hd; cbn [apply_transitions];
    [exact Hd|].
  destruct Hres as [Hr Hrest].
  apply IH; [exact Hrest|]. now apply well_tracked_step.
Qed.

Lemma well_tracked_Construct db now id i l :
  Construct db now id i = (l, Resolved) -> well_tracked l.
Proof.
  intros H. destruct (Construct_resolved_state _ _ _ _ _ H)
    as (Hs & Hh & Ht & Hn & Hm).
  split; [exact Hn|]. split; [exact Hm|]. split.
  - now rewrite Hh, Hs.
  - intros st. unfold stage_timestamp. rewrite Ht, Hh. destruct st; reflexivity.
Qed.

Lemma pre_save_isNew now d : isNew (pre_save now d) = isNew d.
Proof.
  unfold pre_save.
  destruct (track_status_contact now (normalize_contact d))
    as (_ & _ & _ & _ & _ & _ & _ & _ & _ & _ & H & _).
  rewrite H. reflexivity.
Qed.

(** Whatever happens to a call of [updateStatus] on a stored document, the
    document stays a stored one and its history is extended, never cut or
    rewritten. *)
Lemma updateStatus_history_prefix db now s n d :
  isNew d = false ->
  isNew (fst (updateStatus db now s n d)) = false /\
  statusHistory d `prefix_of` statusHistory (fst (updateStatus db now s n d)).
Proof.
  intros Hnew. destruct (includes validStatuses s) eqn:Hs.
  - rewrite (updateStatus_valid _ _ _ _ _ Hs).
    destruct (staged_fields s n d) as (_ & Fh & _ & Fn & _).
    rewrite Hnew in Fn.
    assert (Hpre : isNew (pre_save now (staged s n d)) = false /\
                   statusHistory d `prefix_of`
                     statusHistory (pre_save now (staged s n d))).
    { split; [now rewrite pre_save_isNew|].
      destruct (pre_save_history now (staged s n d) Fn) as [_ Ph].
      destruct (statusModified (staged s n d)).
      - destruct Ph as (e & -> & _). rewrite Fh. now apply prefix_app_r.
      - now rewrite Ph, Fh. }
    unfold save. destruct (validation_error db (staged s n d)); cbn [fst].
    + split; [exact Fn|now rewrite Fh].
    + destruct (write_error db (pre_save now (staged s n d))); cbn [fst];
        [exact Hpre|].
      destruct (mark_saved_status_fields now (pre_save now (staged s n d)))
        as (_ & -> & _ & -> & _).
      split; [reflexivity|apply Hpre].
  - destruct (updateStatus_invalid db now s n d Hs) as [msg ->]. cbn [fst].
    split; [exact Hnew|reflexivity].
Qed.

(** X12.  The status history of a stored lead is append-only: after any
    sequence of calls of [updateStatus], with any arguments and whether or
    not the persistence layer accepts them, the history the lead had is a
    prefix of the history it has. *)
Theorem statusHistory_append_only db ts d :
  isNew d = false ->
  statusHistory d `prefix_of` statusHistory (apply_transitions db ts d).
Proof.
  revert d. induction ts as [|t r IH]; intros d Hnew; cbn [apply_transitions].
  - reflexivity.
  - destruct (updateStatus_history_prefix db (at_time t) (to_status t)
                (with_notes t) d Hnew) as [Hn Hp].
    etrans; [exact Hp|]. now apply IH.
Qed.

Lemma statusHistory_append_only_witness :
  isNew jane = false /\
  statusHistory jane `prefix_of`
    statusHistory (apply_transitions refusing_b jane_journey jane).
Proof.
  split; [reflexivity|].
  apply (statusHistory_append_only refusing_b jane_journey jane). reflexivity.
Defined.

(** X13.  For a freshly constructed lead and any sequence of calls of
    [updateStatus] on it, each of which resolved, the last entry of the
    status history carries the current status of the lead. *)
Theorem last_entry_is_current_status db now id i l ts :
  Construct db now id i = (l, Resolved) ->
  all_resolved db ts l ->
  option_map entry_status (last (statusHistory (apply_transitions db ts l)))
  = Some (status (apply_transitions db ts l)).
Proof.
  intros Hc Hts.
  apply (well_tracked_transitions db ts l Hts (well_tracked_Construct _ _ _ _ _ Hc)).
Qed.

Lemma last_entry_is_current_status_witness :
  Construct validating 1000 "L1" jane_input = (jane, Resolved) /\
  all_resolved validating jane_journey jane /\
  option_map entry_status
    (last (statusHistory (apply_transitions validating jane_journey jane)))
  = Some (status (apply_transitions validating jane_journey jane)).
Proof.
  split; [exact jane_constructed_validating|].
  split; [exact jane_journey_resolved|].
  apply (last_entry_is_current_status validating 1000 "L1" jane_input jane
           jane_journey jane_constructed_validating jane_journey_resolved).
Defined.

(** X14.  For a freshly constructed lead and any sequence of calls of
    [updateStatus] on it, each of which resolved, each stage timestamp is
    the time of the first history entry with the status of that stage, and
    is unset exactly when the history has no such entry. *)
Theorem stage_timestamp_is_first_entry db now id i l ts st :
  Construct db now id i = (l, Resolved) ->
  all_resolved db ts l ->
  stage_timestamp st (apply_transitions db ts l) =
  option_map timestamp
    (first_with_status (stage_name st)
       (statusHistory (apply_transitions db ts l))).
Proof.
  intros Hc Hts.
  apply (well_tracked_transitions db ts l Hts (well_tracked_Construct _ _ _ _ _ Hc)).
Qed.

Lemma jane_returns_resolved :
  all_resolved validating
    (jane_journey ++ [mkTransition "converted" None 6000])%list jane.
Proof. vm_compute. repeat split. Qed.

Lemma stage_timestamp_is_first_entry_witness :
  all_resolved validating
    (jane_journey ++ [mkTransition "converted" None 6000])%list jane /\
  stage_timestamp Connected
    (apply_transitions validating
       (jane_journey ++ [mkTransition "converted" None 6000])%list jane)
  = Some 2000 /\
  stage_timestamp Connected
    (apply_transitions validating
       (jane_journey ++ [mkTransition "converted" None 6000])%list jane) =
  option_map timestamp
    (first_with_status (stage_name Connected)
       (statusHistory
          (apply_transitions validating
             (jane_journey ++ [mkTransition "converted" None 6000])%list jane))).
Proof.
  split; [exact jane_returns_resolved|].
  split; [vm_compute; reflexivity|].
  apply (stage_timestamp_is_first_entry validating 1000 "L1" jane_input jane
           (jane_journey ++ [mkTransition "converted" None 6000])%list
           Connected jane_constructed_validating jane_returns_resolved).
Defined.

(** ** Chronology *)

Lemma chronological_snoc h e :
  chronological h ->
  (forall a, In a h -> timestamp a <= timestamp e) ->
  chronological (h ++ [e]).
Proof.
  intros Hh He i j a b Hij Hi Hj.
  apply lookup_app_Some in Hi as [Hi|[Hli Hi]];
    apply lookup_app_Some in Hj as [Hj|[Hlj Hj]].
  - exact (Hh i j a b Hij Hi Hj).
  - assert (b = e) as ->.
    { destruct (j - length h)%nat; [now injection Hj|discriminate]. }
    apply He. apply list_elem_of_In, list_elem_of_lookup. eauto.
  - apply lookup_lt_Some in Hj. lia.
  - assert (a = e) as ->.
    { destruct (i - length h)%nat; [now injection Hi|discriminate]. }
    assert (b = e) as ->.
    { destruct (j - length h)%nat; [now injection Hj|discriminate]. }
    lia.
Qed.

Lemma chronological_transitions db :
  forall ts d t0,
    all_resolved db ts d -> nondecreasing_from t0 ts ->
    isNew d = false -> statusModified d = false ->
    chronological (statusHistory d) ->
    (forall a, In a (statusHistory d) -> timestamp a <= t0) ->
    chronological (statusHistory (apply_transitions db ts d)).
Proof.
  induction ts as [|t r IH]; intros d t0 Hts Hnd Hnew Hmod Hc Hb.
  - exact Hc.
  - destruct Hts as [Ht Hr]. destruct Hnd as [Ht0 Hnd].
    cbn [apply_transitions].
    destruct (updateStatus_effect db (at_time t) (to_status t) (with_notes t) d
                Ht Hnew Hmod) as (_ & Hn' & Hm' & _ & Heff).
    set (d' := fst (updateStatus db (at_time t) (to_status t) (with_notes t) d)) in *.
    assert (Hinv : chronological (statusHistory d') /\
                   forall a, In a (statusHistory d') -> timestamp a <= at_time t).
    { destruct (String.eqb (status d) (to_status t)).
      - destruct Heff as [-> _]. split; [exact Hc|].
        intros a Ha. specialize (Hb a Ha). lia.
      - destruct Heff as [(e & -> & _ & He) _]. split.
        + apply chronological_snoc; [exact Hc|].
          intros a Ha. specialize (Hb a Ha). lia.
        + intros a Ha. apply in_app_or in Ha as [Ha|[<-|[]]];
            [specialize (Hb a Ha)|]; lia. }
    destruct Hinv as [Hc' Hb'].
    exact (IH d' (at_time t) Hr Hnd Hn' Hm' Hc' Hb').
Qed.

(** X15.  When the clock does not go backwards between the construction of
    a lead and the calls of [updateStatus] on it, each of which resolved,
    the entries of its status history are in the order of their
    timestamps. *)
Theorem statusHistory_chronological db now id i l ts :
  Construct db now id i = (l, Resolved) ->
  all_resolved db ts l -> nondecreasing_from now ts ->
  chronological (statusHistory (apply_transitions db ts l)).
Proof.
  intros Hc Hts Hnd.
  destruct (Construct_resolved_state _ _ _ _ _ Hc) as (_ & Hh & _ & Hn & Hm).
  apply (chronological_transitions db ts l now Hts Hnd Hn Hm).
  - rewrite Hh. intros [|x] [|y] a b Hij Hi Hj; try discriminate; try lia.
    injection Hi as <-. injection Hj as <-. lia.
  - rewrite Hh. intros a [<-|[]]. cbn. lia.
Qed.

Lemma statusHistory_chronological_witness :
  Construct validating 1000 "L1" jane_input = (jane, Resolved) /\
  all_resolved validating jane_journey jane /\
  nondecreasing_from 1000 jane_journey /\
  chronological (statusHistory (apply_transitions validating jane_journey jane)).
Proof.
  assert (Hnd : nondecreasing_from 1000 jane_journey)
    by (cbn; repeat split; lia).
  split; [exact jane_constructed_validating|].
  split; [exact jane_journey_resolved|].
  split; [exact Hnd|].
  apply (statusHistory_chronological validating 1000 "L1" jane_input jane
           jane_journey jane_constructed_validating jane_journey_resolved Hnd).
Defined.

Section MetricsSign.

Variable now : Z.

Lemma metrics_loop_nonneg rest : forall current m,
  chronological (current :: rest) ->
  (forall a, In a (current :: rest) -> timestamp a <= now) ->
  map_Forall (fun _ v => 0 <= v) (timeInEachStatus m) ->
  map_Forall (fun _ v => 0 <= v)
    (timeInEachStatus (metrics_loop now current rest m)) /\
  (exists v, currentStatusDuration (metrics_loop now current rest m) = Some v /\
             0 <= v).
Proof.
  induction rest as [|next rest' IH]; intros current m Hc Hb Hm.
  - cbn [metrics_loop timeInEachStatus currentStatusDuration]. split; [exact Hm|].
    eexists. split; [reflexivity|].
    specialize (Hb current (or_introl eq_refl)). lia.
  - cbn [metrics_loop]. apply IH.
    + intros i j a b Hij Hi Hj. exact (Hc (S i) (S j) a b ltac:(lia) Hi Hj).
    + intros a Ha. apply Hb. now right.
    + cbn [timeInEachStatus]. apply map_Forall_insert_2; [|exact Hm].
      pose proof (Hc 0%nat 1%nat current next ltac:(lia) eq_refl eq_refl). lia.
Qed.

End MetricsSign.

(** X16.  For a lead whose history is in the order of its timestamps and
    not later than the present, every duration [getProgressionMetrics]
    reports is non-negative: each time in [timeInEachStatus] and the
    current status duration. *)
Theorem getProgressionMetrics_nonneg (now : Z) (d : Lead) (m : Metrics) :
  chronological (statusHistory d) ->
  (forall a, In a (statusHistory d) -> timestamp a <= now) ->
  getProgressionMetrics now d = Some m ->
  0 <= totalProgressions m /\
  (forall s v, timeInEachStatus m !! s = Some v -> 0 <= v) /\
  (exists v, currentStatusDuration m = Some v /\ 0 <= v).
Proof.
  intros Hc Hb. unfold getProgressionMetrics.
  destruct (statusHistory d) as [|first rest]; [discriminate|].
  intros [= <-].
  destruct (metrics_loop_nonneg now rest first
              (mkMetrics (Z.of_nat (length (first :: rest)) - 1) ∅ None) Hc Hb)
    as [H1 H2]; [apply map_Forall_empty|].
  split; [|split; [exact H1|exact H2]].
  rewrite metrics_loop_total. cbn [totalProgressions length]. lia.
Qed.

Lemma jane_returns_chronological : chronological (statusHistory jane_returns).
Proof.
  unfold jane_returns.
  apply (chronological_transitions accepting
           (jane_journey ++ [mkTransition "converted" None 6000])%list
           jane 1000).
  - vm_compute. repeat split.
  - cbn. repeat split; lia.
  - reflexivity.
  - reflexivity.
  - intros [|x] [|y] a b Hij Hi Hj; try discriminate; try lia.
    injection Hi as <-. injection Hj as <-. lia.
  - intros a [<-|[]]. cbn. lia.
Qed.

Lemma jane_returns_past a :
  In a (statusHistory jane_returns) -> timestamp a <= 7000.
Proof.
  assert (Hh : statusHistory jane_returns =
               [mkEntry "new" 1000 None; mkEntry "connected" 2000 None;
                mkEntry "qualified" 3000 (Some "budget confirmed");
                mkEntry "connected" 4000 None; mkEntry "converted" 6000 None])
    by (vm_compute; reflexivity).
  rewrite Hh. intros Ha.
  repeat (destruct Ha as [<-|Ha]; [cbn; lia|]). destruct Ha.
Qed.

Lemma getProgressionMetrics_nonneg_witness :
  exists m, getProgressionMetrics 7000 jane_returns = Some m /\
    0 <= totalProgressions m /\
    (forall s v, timeInEachStatus m !! s = Some v -> 0 <= v) /\
    (exists v, currentStatusDuration m = Some v /\ 0 <= v).
Proof.
  destruct (getProgressionMetrics 7000 jane_returns) as [m|] eqn:Hm;
    [|discriminate].
  exists m. split; [reflexivity|].
  exact (getProgressionMetrics_nonneg 7000 jane_returns m
           jane_returns_chronological jane_returns_past Hm).
Defined.

(** ** Notes of a status change *)

Lemma staged_statusNotes s n d :
  _statusNotes (staged s n d) =
  if truthy n && (0 <? Z.of_nat (length (statusHistory d)))
  then n else _statusNotes d.
Proof.
  unfold staged. cbn [statusHistory set_status].
  destruct (truthy n && (0 <? Z.of_nat (length (statusHistory d))));
    reflexivity.
Qed.

(** The history and the pending notes after the hook, for a stored
    document. *)
Lemma pre_save_exact now x :
  isNew x = false ->
  statusHistory (pre_save now x) =
    (if statusModified x
     then (statusHistory x ++
             [mkEntry (status x) now
                (if truthy (_statusNotes x) then _statusNotes x else None)])%list
     else statusHistory x) /\
  _statusNotes (pre_save now x) =
    (if statusModified x && truthy (_statusNotes x) then None
     else _statusNotes x).
Proof.
  intros Hnew. unfold pre_save, track_status.
  destruct (normalize_contact_status_fields x) as (Hs & Hh & Ht & Hn & Hm & Hx).
  rewrite Hm, Hn, Hnew, orb_false_r, Hs, Hx, Hh.
  destruct (statusModified x); [|split; [exact Hh|exact Hx]].
  destruct (truthy (_statusNotes x)); split; reflexivity.
Qed.

Lemma updateStatus_exact db now s n d :
  snd (updateStatus db now s n d) = Resolved ->
  isNew d = false -> statusModified d = false ->
  let pending := if truthy n && (0 <? Z.of_nat (length (statusHistory d)))
                 then n else _statusNotes d in
  let d' := fst (updateStatus db now s n d) in
  if String.eqb (status d) s
  then statusHistory d' = statusHistory d /\ _statusNotes d' = pending
  else statusHistory d' =
         (statusHistory d ++
            [mkEntry s now (if truthy pending then pending else None)])%list /\
       _statusNotes d' = (if truthy pending then None else pending).
Proof.
  intros Hres Hnew Hmod pending d'. subst d'.
  destruct (updateStatus_resolved _ _ _ _ _ Hres) as [Hs ->].
  unfold committed. cbn [fst].
  destruct (staged_fields s n d) as (Fs & Fh & _ & Fn & Fm).
  rewrite Hnew in Fn. rewrite Hnew, Hmod in Fm. cbn [orb] in Fm.
  destruct (pre_save_exact now (staged s n d) Fn) as [Ph Px].
  rewrite Fm, Fs, Fh, staged_statusNotes in Ph.
  rewrite Fm, staged_statusNotes in Px.
  change (statusHistory (mark_saved now (pre_save now (staged s n d))))
    with (statusHistory (pre_save now (staged s n d))).
  change (_statusNotes (mark_saved now (pre_save now (staged s n d))))
    with (_statusNotes (pre_save now (staged s n d))).
  fold pending in Ph, Px.
  destruct (String.eqb (status d) s); cbn [negb andb] in Ph, Px;
    split; assumption.
Qed.

(** X17.  A call of [updateStatus] that resolved and changes the status of
    a stored lead with a non-empty history and nothing pending appends
    exactly one entry: the new status, the time of the save, and the notes
    given when they are a non-empty string (no notes otherwise); nothing
    stays pending. *)
Theorem updateStatus_records_notes db now s n d :
  snd (updateStatus db now s n d) = Resolved ->
  isNew d = false -> statusModified d = false ->
  statusHistory d <> [] -> truthy (_statusNotes d) = false ->
  status d <> s ->
  let d' := fst (updateStatus db now s n d) in
  statusHistory d' =
    (statusHistory d ++ [mkEntry s now (if truthy n then n else None)])%list /\
  truthy (_statusNotes d') = false.
Proof.
  intros Hres Hnew Hmod Hh Hp Hne d'.
  pose proof (updateStatus_exact db now s n d Hres Hnew Hmod) as H.
  cbn zeta in H. fold d' in H.
  destruct (String.eqb_spec (status d) s) as [|_]; [contradiction|].
  assert (Hlen : (0 <? Z.of_nat (length (statusHistory d))) = true).
  { destruct (statusHistory d); [congruence|reflexivity]. }
  rewrite Hlen, andb_true_r in H. destruct H as [H1 H2].
  destruct (truthy n) eqn:Hn.
  - rewrite Hn in H1, H2. rewrite H1, H2. split; reflexivity.
  - rewrite Hp in H1, H2. rewrite H1, H2. split; [reflexivity|exact Hp].
Qed.

Lemma updateStatus_records_notes_witness :
  snd (updateStatus validating 2000 "connected" (Some "called back") jane)
  = Resolved /\
  statusHistory
    (fst (updateStatus validating 2000 "connected" (Some "called back") jane))
  = [mkEntry "new" 1000 None; mkEntry "connected" 2000 (Some "called back")] /\
  truthy (_statusNotes
            (fst (updateStatus validating 2000 "connected" (Some "called back")
                    jane)))
  = false.
Proof.
  assert (Hres : snd (updateStatus validating 2000 "connected"
                        (Some "called back") jane) = Resolved)
    by (vm_compute; reflexivity).
  split; [exact Hres|].
  apply (updateStatus_records_notes validating 2000 "connected"
           (Some "called back") jane Hres);
    first [reflexivity | discriminate].
Defined.

(** X18.  Notes given with a call of [updateStatus] for the status a stored
    lead already holds are not recorded when the call resolves: the history
    stays as it is.  They stay pending on the document object, and the next
    call on this same object that resolves, changes the status and has no
    notes of its own records them. *)
Theorem pending_notes_carry_over db now now' s' n d :
  isNew d = false -> statusModified d = false ->
  statusHistory d <> [] -> truthy n = true ->
  s' <> status d ->
  snd (updateStatus db now (status d) n d) = Resolved ->
  snd (updateStatus db now' s' None (fst (updateStatus db now (status d) n d)))
    = Resolved ->
  let d1 := fst (updateStatus db now (status d) n d) in
  let d2 := fst (updateStatus db now' s' None d1) in
  statusHistory d1 = statusHistory d /\
  statusHistory d2 = (statusHistory d ++ [mkEntry s' now' n])%list.
Proof.
  intros Hnew Hmod Hh Hn Hne Hr1 Hr2 d1 d2.
  assert (Hlen : (0 <? Z.of_nat (length (statusHistory d))) = true).
  { destruct (statusHistory d); [congruence|reflexivity]. }
  pose proof (updateStatus_exact db now (status d) n d Hr1 Hnew Hmod) as H1.
  cbn zeta in H1. fold d1 in H1.
  rewrite String.eqb_refl, Hn, Hlen in H1. cbn [andb] in H1.
  destruct H1 as [Hh1 Hx1].
  destruct (updateStatus_effect db now (status d) n d Hr1 Hnew Hmod)
    as (_ & Hn1 & Hm1 & Hst1 & _). fold d1 in Hn1, Hm1, Hst1, Hr2.
  split; [exact Hh1|].
  pose proof (updateStatus_exact db now' s' None d1 Hr2 Hn1 Hm1) as H2.
  cbn zeta in H2. fold d2 in H2. cbn [truthy andb] in H2.
  rewrite Hst1 in H2.
  destruct (String.eqb_spec (status d) s') as [He|_]; [congruence|].
  destruct H2 as [H2 _]. now rewrite H2, Hx1, Hn, Hh1.
Qed.

Lemma pending_notes_carry_over_witness :
  let d1 := fst (updateStatus validating 2000 "new" (Some "left a message") jane) in
  let d2 := fst (updateStatus validating 3000 "connected" None d1) in
  snd (updateStatus validating 2000 "new" (Some "left a message") jane)
    = Resolved /\
  snd (updateStatus validating 3000 "connected" None d1) = Resolved /\
  statusHistory d1 = [mkEntry "new" 1000 None] /\
  statusHistory d2 =
    [mkEntry "new" 1000 None; mkEntry "connected" 3000 (Some "left a message")].
Proof.
  intros d1 d2.
  assert (Hr1 : snd (updateStatus validating 2000 "new" (Some "left a message")
                       jane) = Resolved) by (vm_compute; reflexivity).
  assert (Hr2 : snd (updateStatus validating 3000 "connected" None
                       (fst (updateStatus validating 2000 "new"
                               (Some "left a message") jane))) = Resolved)
    by (vm_compute; reflexivity).
  split; [exact Hr1|]. split; [exact Hr2|].
  apply (pending_notes_carry_over validating 2000 3000 "connected"
           (Some "left a message") jane);
    first [exact Hr1 | exact Hr2 | reflexivity | discriminate].
Defined.

(** X19.  [updateStatus] with a status outside the enumeration is rejected
    with the message the controller looks for, and the lead is left as it
    was: not even its status is assigned.  When [updateStatus] resolves, the
    status given is one of the four, the lead holds it, and nothing is left
    to save. *)
Theorem updateStatus_outcome db now s n d :
  (includes validStatuses s = false ->
   updateStatus db now s n d =
     (d, Rejected ("Invalid status: " +:+ s +:+
                   ". Must be one of: new, connected, qualified, converted"))) /\
  (forall d', updateStatus db now s n d = (d', Resolved) ->
     In s validStatuses /\ status d' = s /\
     isNew d' = false /\ statusModified d' = false).
Proof.
  split.
  - intros H. unfold updateStatus. rewrite H. reflexivity.
  - intros d' H. destruct (includes validStatuses s) eqn:Hs.
    + split; [now apply includes_In|].
      split; [exact (updateStatus_resolved_status _ _ _ _ _ _ H)|].
      rewrite (updateStatus_valid _ _ _ _ _ Hs) in H.
      apply save_resolved in H. subst d'. split; reflexivity.
    + destruct (updateStatus_invalid db now s n d Hs) as [msg Hm].
      rewrite Hm in H. discriminate.
Qed.

Lemma updateStatus_outcome_witness :
  updateStatus refusing_b 2000 "contacted" None jane =
    (jane, Rejected "Invalid status: contacted. Must be one of: new, connected, qualified, converted") /\
  In "qualified" validStatuses /\
  status (fst (updateStatus accepting 2000 "qualified" None jane)) = "qualified".
Proof.
  destruct (updateStatus_outcome refusing_b 2000 "contacted" None jane) as [H _].
  split; [apply H; reflexivity|].
  destruct (updateStatus_outcome accepting 2000 "qualified" None jane) as [_ H'].
  destruct (H' _ eq_refl) as (H1 & H2 & _). split; [exact H1|exact H2].
Defined.

(** ** Status counts *)

Lemma sum_cond_snoc p docs d :
  sum_cond p (docs ++ [d]) = sum_cond p docs + (if p d then 1 else 0).
Proof. unfold sum_cond. now rewrite fold_left_app. Qed.

Lemma group_by_status_snoc docs d :
  group_by_status (docs ++ [d]) =
  <[status d := default 0 (group_by_status docs !! status d) + 1]>
    (group_by_status docs).
Proof. unfold group_by_status. now rewrite fold_left_app. Qed.

(** The count of a group is the number of leads with its status, and a
    status that no lead has makes no group. *)
Lemma group_by_status_lookup docs s :
  group_by_status docs !! s =
  if count_status s docs =? 0 then None else Some (count_status s docs).
Proof.
  unfold count_status. induction docs as [|d docs IH] using rev_ind.
  - reflexivity.
  - rewrite group_by_status_snoc, sum_cond_snoc.
    pose proof (sum_cond_nonneg (status_is s) docs) as Hpos.
    assert (Hd : status_is s d = String.eqb (status d) s) by reflexivity.
    rewrite Hd. clear Hd.
    destruct (String.eqb_spec (status d) s) as [He|Hne].
    + rewrite He, lookup_insert_eq, IH.
      destruct (Z.eqb_spec (sum_cond (status_is s) docs) 0) as [H0|H0];
        cbn [default].
      * rewrite H0. reflexivity.
      * destruct (Z.eqb_spec (sum_cond (status_is s) docs + 1) 0);
          [lia|reflexivity].
    + rewrite lookup_insert_ne by exact Hne. rewrite IH, Z.add_0_r. reflexivity.
Qed.

Lemma sum_Z_perm l l' : l ≡ₚ l' -> sum_Z l = sum_Z l'.
Proof.
  unfold sum_Z.
  induction 1 as [|x l l' _ IH|x y l|l l' l'' _ IH1 _ IH2]; cbn [fold_right].
  - reflexivity.
  - now rewrite IH.
  - lia.
  - congruence.
Qed.

Lemma map_is_fmap {A B} (f : A -> B) (l : list A) : map f l = f <$> l.
Proof. induction l as [|x l IH]; [reflexivity|]. cbn. now rewrite IH. Qed.

Lemma sum_Z_cons x l : sum_Z (x :: l) = x + sum_Z l.
Proof. reflexivity. Qed.

(** The counts of the groups add up to the number of documents. *)
Lemma group_by_status_sum docs :
  sum_Z (map snd (map_to_list (group_by_status docs))) = Z.of_nat (length docs).
Proof.
  induction docs as [|d docs IH] using rev_ind; [reflexivity|].
  rewrite group_by_status_snoc, length_app. cbn [length].
  rewrite Nat2Z.inj_add, <- IH. change (Z.of_nat 1) with 1.
  set (G := group_by_status docs).
  destruct (G !! status d) as [v|] eqn:Hv; cbn [default].
  - rewrite <- (insert_delete_eq G).
    rewrite (sum_Z_perm _ _
               (Permutation_map snd
                  (map_to_list_insert (delete (status d) G) (status d) (v + 1)
                     (lookup_delete_eq G (status d))))).
    rewrite <- (sum_Z_perm _ _
                  (Permutation_map snd (map_to_list_delete G (status d) v Hv))).
    cbn [map snd]. rewrite !sum_Z_cons. lia.
  - rewrite (sum_Z_perm _ _
               (Permutation_map snd (map_to_list_insert G (status d) (0 + 1) Hv))).
    cbn [map snd]. rewrite sum_Z_cons. lia.
Qed.

Lemma formatStats_fold stats : forall acc,
  stats_total (fold_left
     (fun acc stat => mkLeadStats (stats_total acc + snd stat)
                                  (<[fst stat := snd stat]> (byStatus acc)))
     stats acc) = stats_total acc + sum_Z (map snd stats).
Proof.
  induction stats as [|x r IH]; intros acc; cbn [fold_left map].
  - unfold sum_Z. cbn. lia.
  - rewrite IH, sum_Z_cons. cbn [stats_total]. lia.
Qed.

Lemma formatStats_lookup stats : forall acc s,
  NoDup (map fst stats) ->
  byStatus (fold_left
     (fun acc stat => mkLeadStats (stats_total acc + snd stat)
                                  (<[fst stat := snd stat]> (byStatus acc)))
     stats acc) !! s =
  match List.find (fun stat => String.eqb (fst stat) s) stats with
  | Some stat => Some (snd stat)
  | None => byStatus acc !! s
  end.
Proof.
  induction stats as [|[k x] r IH]; intros acc s Hnd; cbn [fold_left List.find];
    [reflexivity|].
  apply NoDup_cons in Hnd as [Hk Hnd]. rewrite (IH _ s Hnd). cbn [fst snd byStatus].
  destruct (String.eqb_spec k s) as [->|Hne].
  - destruct (List.find _ r) as [[k' x']|] eqn:Hf.
    + apply find_some in Hf as [Hin He]. cbn in He.
      apply String.eqb_eq in He. subst k'. exfalso. apply Hk.
      apply list_elem_of_In. exact (in_map fst r (s, x') Hin).
    + apply lookup_insert_eq.
  - destruct (List.find _ r); [reflexivity|]. now apply lookup_insert_ne.
Qed.

(** X20.  Whatever the order in which the aggregation lists the groups, the
    statistics the handler builds from them have [total] equal to the number
    of leads and, under each status that at least one lead has, the number
    of leads with that status; a status that no lead has is not a key of
    [byStatus] (it is absent, not 0). *)
Theorem getLeadStats_counts (docs : list Lead) (stats : list (string * Z)) :
  stats_of docs stats ->
  stats_total (formatStats stats) = Z.of_nat (length docs) /\
  forall s, byStatus (formatStats stats) !! s =
            if count_status s docs =? 0 then None
            else Some (count_status s docs).
Proof.
  unfold stats_of. intros Hperm. split.
  - unfold formatStats. rewrite formatStats_fold. cbn [stats_total].
    rewrite (sum_Z_perm _ _ (Permutation_map snd Hperm)).
    rewrite group_by_status_sum. lia.
  - intros s. rewrite <- group_by_status_lookup.
    assert (Hnd : NoDup (map fst stats)).
    { rewrite map_is_fmap, Hperm. apply NoDup_fst_map_to_list. }
    unfold formatStats. rewrite (formatStats_lookup _ _ s Hnd). cbn [byStatus].
    destruct (List.find _ stats) as [[k v]|] eqn:Hf.
    + apply find_some in Hf as [Hin He]. cbn in He.
      apply String.eqb_eq in He. subst k. cbn [snd]. symmetry.
      apply elem_of_map_to_list. rewrite <- Hperm. now apply list_elem_of_In.
    + rewrite lookup_empty. symmetry.
      destruct (group_by_status docs !! s) as [v|] eqn:Hv; [|reflexivity].
      apply elem_of_map_to_list in Hv. rewrite <- Hperm in Hv.
      apply list_elem_of_In in Hv.
      pose proof (find_none _ _ Hf _ Hv) as Hx. cbn in Hx.
      now rewrite String.eqb_refl in Hx.
Qed.

Lemma getLeadStats_counts_witness :
  let stats := map_to_list (group_by_status five_leads) in
  stats_of five_leads stats /\
  stats_total (formatStats stats) = Z.of_nat (length five_leads) /\
  forall s, byStatus (formatStats stats) !! s =
            if count_status s five_leads =? 0 then None
            else Some (count_status s five_leads).
Proof.
  intros stats.
  assert (Hs : stats_of five_leads stats) by (unfold stats_of; reflexivity).
  split; [exact Hs|].
  exact (getLeadStats_counts five_leads stats Hs).
Defined.

Example five_leads_stats :
  formatStats [("new", 2); ("qualified", 2); ("connected", 1)] =
  mkLeadStats 5 (<["connected" := 1]> (<["qualified" := 2]> (<["new" := 2]> ∅))) /\
  byStatus (formatStats (map_to_list (group_by_status five_leads))) !! "converted"
  = None.
Proof. split; vm_compute; reflexivity. Qed.

(** ** The funnel and the status counts *)

Lemma sum_cond_cons p d docs :
  sum_cond p (d :: docs) = (if p d then 1 else 0) + sum_cond p docs.
Proof.
  unfold sum_cond. cbn [fold_left].
  assert (H : forall l a b,
            fold_left (fun acc x => acc + (if p x then 1 else 0)) l (a + b) =
            a + fold_left (fun acc x => acc + (if p x then 1 else 0)) l b).
  { induction l as [|x l IH]; intros a b; cbn [fold_left]; [reflexivity|].
    rewrite <- Z.add_assoc. apply IH. }
  rewrite <- (H docs _ 0). f_equal. lia.
Qed.

Lemma sum_cond_or p q docs :
  (forall d, p d && q d = false) ->
  sum_cond (fun d => p d || q d) docs = sum_cond p docs + sum_cond q docs.
Proof.
  intros Hpq. induction docs as [|d r IH]; [reflexivity|].
  rewrite !sum_cond_cons, IH. specialize (Hpq d).
  destruct (p d), (q d); cbn in *; try discriminate; lia.
Qed.

Lemma status_is_disjoint s s' d :
  s <> s' -> status_is s d && status_is s' d = false.
Proof.
  intros Hne. unfold status_is.
  destruct (String.eqb_spec (status d) s) as [->|]; [|reflexivity].
  destruct (String.eqb_spec s s'); [contradiction|reflexivity].
Qed.

Lemma funnel_of_fields docs :
  total (funnel_of docs) = sum_cond (fun _ => true) docs /\
  connected (funnel_of docs) =
    sum_cond (fun d => status_is "connected" d || status_is "qualified" d
                       || status_is "converted" d) docs /\
  qualified (funnel_of docs) =
    sum_cond (fun d => status_is "qualified" d || status_is "converted" d) docs /\
  converted (funnel_of docs) = sum_cond (status_is "converted") docs.
Proof. destruct docs; repeat split. Qed.

(** X21.  The funnel can be read off the status counts: [connected] is the
    number of leads that are connected, qualified or converted, [qualified]
    the number that are qualified or converted, [converted] the number that
    are converted; and when every status is one of the four, [total] is the
    number of new leads plus [connected]. *)
Theorem funnel_from_status_counts (docs : list Lead) :
  let f := funnel_of docs in
  let c s := count_status s docs in
  connected f = c "connected" + c "qualified" + c "converted" /\
  qualified f = c "qualified" + c "converted" /\
  converted f = c "converted" /\
  (Forall (fun d => includes validStatuses (status d) = true) docs ->
   total f = c "new" + connected f).
Proof.
  cbn zeta. unfold count_status.
  destruct (funnel_of_fields docs) as (-> & -> & -> & ->).
  assert (H2 : sum_cond (fun d => status_is "qualified" d
                                  || status_is "converted" d) docs =
               sum_cond (status_is "qualified") docs
               + sum_cond (status_is "converted") docs).
  { apply sum_cond_or. intros d. now apply status_is_disjoint. }
  assert (H3 : sum_cond (fun d => status_is "connected" d
                                  || status_is "qualified" d
                                  || status_is "converted" d) docs =
               sum_cond (status_is "connected") docs
               + sum_cond (status_is "qualified") docs
               + sum_cond (status_is "converted") docs).
  { rewrite (sum_cond_or (fun d => status_is "connected" d
                                   || status_is "qualified" d)
               (status_is "converted")).
    - f_equal. apply sum_cond_or. intros d. now apply status_is_disjoint.
    - intros d. rewrite andb_orb_distrib_l.
      rewrite !status_is_disjoint by discriminate. reflexivity. }
  split; [exact H3|]. split; [exact H2|]. split; [reflexivity|].
  intros Hall. rewrite H3. clear H2 H3.
  induction Hall as [|d r Hd _ IH]; [reflexivity|].
  rewrite !sum_cond_cons, IH.
  assert (Hcases : status d = "new" \/ status d = "connected" \/
                   status d = "qualified" \/ status d = "converted").
  { apply includes_In in Hd. cbn [In validStatuses] in Hd.
    destruct Hd as [H|[H|[H|[H|[]]]]]; auto. }
  assert (Hd' : forall s, status_is s d = String.eqb (status d) s)
    by reflexivity.
  rewrite !Hd'.
  destruct Hcases as [H|[H|[H|H]]]; rewrite H;
    repeat match goal with
           | |- context [String.eqb ?a ?b] =>
               let v := eval vm_compute in (String.eqb a b) in
               change (String.eqb a b) with v
           end;
    cbn [orb]; lia.
Qed.

Lemma funnel_from_status_counts_witness :
  Forall (fun d => includes validStatuses (status d) = true) five_leads /\
  total (funnel_of five_leads) =
    count_status "new" five_leads + connected (funnel_of five_leads).
Proof.
  assert (Hall : Forall (fun d => includes validStatuses (status d) = true)
                   five_leads) by (repeat constructor).
  split; [exact Hall|].
  destruct (funnel_from_status_counts five_leads) as (_ & _ & _ & H).
  exact (H Hall).
Defined.

(** ** The summary of a bulk update *)

Lemma NoDup_map_filter {A B} (g : A -> B) (p : A -> bool) (l : list A) :
  List.NoDup (map g l) -> List.NoDup (map g (List.filter p l)).
Proof.
  induction l as [|x l IH]; cbn [map List.filter]; intros H; [constructor|].
  apply List.NoDup_cons_iff in H as [Hx Hl]. destruct (p x); [|now apply IH].
  cbn [map]. apply List.NoDup_cons_iff. split; [|now apply IH].
  intros Hin. apply Hx. apply in_map_iff in Hin as (y & Hy & Hin).
  apply filter_In in Hin as [Hin _]. apply in_map_iff. eauto.
Qed.

Lemma find_in_length collection ids :
  List.NoDup (map _id collection) ->
  (length (find_in collection ids) <= length ids)%nat.
Proof.
  intros Hnd.
  assert (Hlen : length (find_in collection ids) =
                 length (map _id (find_in collection ids)))
    by (now rewrite length_map).
  rewrite Hlen. apply List.NoDup_incl_length.
  - unfold find_in. rewrite map_map. cbn [hydrate _id].
    now apply NoDup_map_filter.
  - intros id Hid. now apply (find_in_ids collection ids id).
Qed.

(** X22.  In every successful answer of the bulk update the summary is
    coherent: [successful] and [failed] are the lengths of the two lists and
    add up to [found], at least one lead was found, at most 100 identifiers
    were requested, and, identifiers being unique in the collection, no more
    leads were found than identifiers requested. *)
Theorem bulk_summary_bounds cast_id db clock collection body ok ko summary :
  List.NoDup (map _id collection) ->
  bulkUpdateLeadStatus cast_id db clock collection body = Status200 ok ko summary ->
  successful summary = length ok /\ failed summary = length ko /\
  (successful summary + failed summary = found summary)%nat /\
  (1 <= found summary)%nat /\ (found summary <= requested summary)%nat /\
  (requested summary <= 100)%nat.
Proof.
  intros Hnd H. unfold bulkUpdateLeadStatus in H.
  destruct (length (leadIds body) =? 0)%nat; [discriminate|].
  destruct (negb (truthy (Some (req_status body)))
            || negb (includes validStatuses (req_status body)));
    [discriminate|].
  destruct (Nat.ltb_spec 100 (length (leadIds body))) as [|Hmax];
    [discriminate|].
  unfold find_by_ids in H.
  destruct (mapM cast_id (leadIds body)) as [oids|] eqn:Hcast; [|discriminate].
  destruct (Nat.eqb_spec (length (find_in collection oids)) 0)
    as [|Hfound]; [discriminate|].
  destruct (update_each db clock 0 (req_status body) (req_notes body)
              (find_in collection oids) [] []) as [R E] eqn:Hu.
  injection H as <- <- <-.
  apply update_each_spec in Hu as (Rn & En & -> & -> & Hlen & _ & _).
  cbn [successful failed found requested app].
  pose proof (find_in_length collection oids Hnd).
  pose proof (length_mapM _ _ _ Hcast).
  repeat split; lia.
Qed.

Lemma bulk_summary_bounds_witness :
  List.NoDup (map _id five_leads) /\
  exists ok ko summary,
    bulkUpdateLeadStatus hex24 refusing_b (fun i => 9000 + Z.of_nat i) five_leads
      three_and_one = Status200 ok ko summary /\
    successful summary = length ok /\ failed summary = length ko /\
    (successful summary + failed summary = found summary)%nat /\
    (1 <= found summary)%nat /\ (found summary <= requested summary)%nat /\
    (requested summary <= 100)%nat.
Proof.
  assert (Hnd : List.NoDup (map _id five_leads)).
  { vm_compute.
    repeat (apply List.NoDup_cons;
            [cbn; intros H; repeat (destruct H as [H|H]; [discriminate H|]);
             exact H|]).
    apply List.NoDup_nil. }
  split; [exact Hnd|].
  do 3 eexists. split; [vm_compute; reflexivity|].
  eapply (bulk_summary_bounds hex24 refusing_b (fun i => 9000 + Z.of_nat i)
            five_leads three_and_one); [exact Hnd|].
  vm_compute. reflexivity.
Defined.

(** ** Any transition is allowed *)

(** X23.  The status engine has no forbidden move: from any status, a call
    of [updateStatus] with any of the four statuses, whose save the
    persistence layer accepts (validation and write of that very document),
    resolves and leaves the stored lead with that status; its history grows
    by one entry when the status changes and stays as it is when it does
    not. *)
Theorem any_valid_transition_is_accepted db now s n d :
  includes validStatuses s = true ->
  validation_error db (staged s n d) = None ->
  write_error db (pre_save now (staged s n d)) = None ->
  isNew d = false -> statusModified d = false ->
  snd (updateStatus db now s n d) = Resolved /\
  status (fst (updateStatus db now s n d)) = s /\
  length (statusHistory (fst (updateStatus db now s n d))) =
    (length (statusHistory d) + if String.eqb (status d) s then 0 else 1)%nat.
Proof.
  intros Hs Hv Hw Hnew Hmod.
  assert (Hres : snd (updateStatus db now s n d) = Resolved)
    by now rewrite (updateStatus_accepted db now s n d Hs Hv Hw).
  destruct (updateStatus_step db now s n d Hres Hnew Hmod)
    as (_ & _ & Hst & Hlen).
  auto.
Qed.

Lemma any_valid_transition_is_accepted_witness :
  status jane_returns = "converted" /\
  validation_error validating (staged "new" None jane_returns) = None /\
  snd (updateStatus validating 8000 "new" None jane_returns) = Resolved /\
  status (fst (updateStatus validating 8000 "new" None jane_returns)) = "new" /\
  length (statusHistory (fst (updateStatus validating 8000 "new" None jane_returns)))
  = (length (statusHistory jane_returns)
     + if String.eqb (status jane_returns) "new" then 0 else 1)%nat.
Proof.
  split; [vm_compute; reflexivity|].
  split; [vm_compute; reflexivity|].
  apply (any_valid_transition_is_accepted validating 8000 "new" None jane_returns);
    vm_compute; reflexivity.
Defined.

(** ** Looking a lead up by its address *)

Lemma find_first_match {A} (p : A -> bool) (l : list A) (x : A) :
  In x l -> p x = true -> exists y, List.find p l = Some y /\ p y = true.
Proof.
  induction l as [|a r IH]; intros Hin Hp; [destruct Hin|].
  cbn [List.find]. destruct (p a) eqn:Ha; [eauto|].
  destruct Hin as [->|Hin]; [congruence|auto].
Qed.

Lemma Construct_email db now id i l :
  Construct db now id i = (l, Resolved) ->
  email l = lower_string (trim (in_email i)).
Proof.
  unfold Construct. intros H. apply save_resolved in H. subst l.
  change (email (mark_saved now (pre_save now (new_Lead id i))))
    with (email (pre_save now (new_Lead id i))).
  destruct (pre_save_contact now (new_Lead id i)) as (_ & _ & _ & _ & _ & ->).
  reflexivity.
Qed.

(** X24.  The lookup behind the duplicate check is blind to the case of the
    address and to white space around it, for addresses of code units below
    128: once a lead was constructed from an address and is in the
    collection, [findByEmail] with that address in any mix of upper and
    lower case finds a lead stored under the same address. *)
Theorem findByEmail_finds_constructed db now id i l collection q :
  ascii_only q -> ascii_only (in_email i) ->
  Construct db now id i = (l, Resolved) ->
  In l collection ->
  lower_string (trim q) = lower_string (trim (in_email i)) ->
  exists d, findByEmail collection q = Some d /\
            email d = lower_string (trim (in_email i)).
Proof.
  intros _ _ Hc Hin Hq. apply Construct_email in Hc.
  assert (Hcast : lower_string (trim (lower_string q)) =
                  lower_string (trim (in_email i))).
  { now rewrite <- lower_string_trim, lower_string_idem. }
  destruct (find_first_match
              (fun d => String.eqb (email d)
                          (lower_string (trim (lower_string q))))
              collection l Hin)
    as (d & Hd & Hp).
  - rewrite Hc, Hcast. apply String.eqb_refl.
  - exists d. split; [exact Hd|]. apply String.eqb_eq in Hp.
    now rewrite Hp, Hcast.
Qed.

Lemma findByEmail_finds_constructed_witness :
  ascii_only " Jane@X.Com" /\ ascii_only (in_email jane_input) /\
  exists d, findByEmail (five_leads ++ [jane]) " Jane@X.Com" = Some d /\
            email d = lower_string (trim (in_email jane_input)).
Proof.
  split; [vm_compute; reflexivity|]. split; [vm_compute; reflexivity|].
  apply (findByEmail_finds_constructed accepting 1000 "L1" jane_input jane).
  - vm_compute. reflexivity.
  - vm_compute. reflexivity.
  - reflexivity.
  - apply in_or_app. right. left. reflexivity.
  - vm_compute. reflexivity.
Defined.
